(** * python-xbrl: the markup-repair preprocessor, the context resolver
      and the fact-extraction routine of [xbrl/xbrl.py]

    A shallow embedding of [XBRLPreprocessedFile.__init__], [XBRL.get_GAAP],
    [XBRL.data_processing] and the head of [XBRL.parse_GAAP], and the
    properties of the specification that concern them.

    Conventions of the embedding:
    - a Python [str] is a [list ascii] (code points below 256; on those the
      case-insensitive class [[a-z0-9_\.]] matches ASCII letters, digits,
      underscore and dot only);
    - a Python exception is a constructor of [exn], a call that may raise
      returns a [result];
    - a [datetime] at midnight or a [date] is its day ordinal and a
      [timedelta] its number of days, both in [Z]; the operations that
      build one raise [OverflowError] outside the range of the type. *)

From Stdlib Require Import Ascii String.
From Stdlib Require Import List ZArith Lia Bool.
Import ListNotations.

Local Open Scope char_scope.
Local Open Scope list_scope.

(** ** Python values shared by all components *)

Definition text := list ascii.

(** [str] literals of the source, written as Rocq strings. *)
Definition str (s : string) : text := list_ascii_of_string s.

Inductive exn : Type :=
| IndexError
| KeyError
| ValueError
| TypeError
| AttributeError
| OverflowError
| XBRLException (msg : string)
| PyException (msg : string).

Inductive result (A : Type) : Type :=
| Ok (a : A)
| Raise (e : exn).

Arguments Ok {A} a.
Arguments Raise {A} e.

Definition bind {A B : Type} (r : result A) (k : A -> result B) : result B :=
  match r with
  | Ok a => k a
  | Raise e => Raise e
  end.

Notation "x <- r ;; k" := (bind r (fun x => k))
  (at level 61, r at next level, right associativity).

Definition text_eqb (a b : text) : bool :=
  if list_eq_dec ascii_dec a b then true else false.

(** [x in xs] on a list of strings. *)
Definition mem (x : text) (xs : list text) : bool :=
  existsb (text_eqb x) xs.

(** [s.startswith(p)] *)
Fixpoint startswith (p s : text) : bool :=
  match p, s with
  | [], _ => true
  | a :: p', b :: s' => Ascii.eqb a b && startswith p' s'
  | _ :: _, [] => false
  end.

(** ** The regular expressions of the preprocessor *)

Module Re.

Definition between (lo hi c : ascii) : bool :=
  (nat_of_ascii lo <=? nat_of_ascii c)%nat && (nat_of_ascii c <=? nat_of_ascii hi)%nat.

(** The class [[a-z0-9_\.]] under the flag [(?i)]. *)
Definition name_char (c : ascii) : bool :=
  between "a" "z" c || between "A" "Z" c || between "0" "9" c
  || Ascii.eqb c "_" || Ascii.eqb c ".".

(** Longest prefix of class characters and what follows it: the greedy
    [[a-z0-9_\.]+] (empty prefix: the [+] fails). *)
Fixpoint span_name (s : text) : text * text :=
  match s with
  | c :: r =>
      if name_char c then let (n, r') := span_name r in (c :: n, r') else ([], s)
  | [] => ([], [])
  end.

(** [</?[a-z0-9_\.]+>] anchored at the head of [s]: the matched text and
    the rest.  No character of the class is [/] or [>], so the greedy
    choices are the only ones that can succeed. *)
Definition match_tag (s : text) : option (text * text) :=
  match s with
  | "<" :: r =>
      let (slash, r1) := match r with
                         | "/" :: r' => (["/"], r')
                         | _ => ([], r)
                         end in
      match span_name r1 with
      | ((_ :: _) as n, ">" :: r2) => Some ("<" :: slash ++ n ++ [">"], r2)
      | _ => None
      end
  | _ => None
  end.

(** [</([a-z0-9_\.]+)>] anchored at the head of [s]: group 1 and the rest. *)
Definition match_close (s : text) : option (text * text) :=
  match s with
  | "<" :: "/" :: r1 =>
      match span_name r1 with
      | ((_ :: _) as n, ">" :: r2) => Some (n, r2)
      | _ => None
      end
  | _ => None
  end.

(** [re.split(r'(?i)(</?[a-z0-9_\.]+>)', s)]: text, tag, text, ..., text.
    The scan restarts after each match; [fuel] bounds the number of
    positions visited. *)
Fixpoint split_from (fuel : nat) (s : text) : list text :=
  match fuel with
  | O => [s]
  | S n =>
      match s with
      | [] => [[]]
      | c :: r =>
          match match_tag s with
          | Some (tag, rest) => [] :: tag :: split_from n rest
          | None =>
              match split_from n r with
              | t :: ts => (c :: t) :: ts
              | [] => [[c]]
              end
          end
      end
  end.

Definition split (s : text) : list text := split_from (length s) s.

(** [re.findall(r'(?i)</([a-z0-9_\.]+)>', s)] *)
Fixpoint findall_close_from (fuel : nat) (s : text) : list text :=
  match fuel with
  | O => []
  | S n =>
      match s with
      | [] => []
      | _ :: r =>
          match match_close s with
          | Some (name, rest) => name :: findall_close_from n rest
          | None => findall_close_from n r
          end
      end
  end.

Definition findall_close (s : text) : list text :=
  findall_close_from (length s) s.

(** [<*>] anchored at the head of [s]: a run of [<] followed by [>]. *)
Fixpoint match_lts_gt (s : text) : option text :=
  match s with
  | "<" :: r => option_map (cons "<") (match_lts_gt r)
  | ">" :: _ => Some [">"]
  | _ => None
  end.

(** [re.findall(r'(?i)<*>', s)[0]]: the leftmost match, [IndexError]
    when there is none. *)
Fixpoint findall_lts_gt_0 (s : text) : result text :=
  match match_lts_gt s with
  | Some m => Ok m
  | None =>
      match s with
      | [] => Raise IndexError
      | _ :: r => findall_lts_gt_0 r
      end
  end.

End Re.

(** [str.upper()] on the characters it is applied to here (ASCII). *)
Definition upper_char (c : ascii) : ascii :=
  if Re.between "a" "z" c then ascii_of_nat (nat_of_ascii c - 32) else c.

Definition upper (s : text) : text := map upper_char s.

(** ** XBRLPreprocessedFile.__init__ *)

(** What is written to [new_fh]: a token of the input, or a close tag made
    by the preprocessor. *)
Inductive piece : Type :=
| Orig (token : text)
| Synth (close : text).

Definition piece_text (p : piece) : text :=
  match p with Orig t => t | Synth t => t end.

(** [new_fh.getvalue()] *)
Definition render (ps : list piece) : text := concat (map piece_text ps).

(** The input tokens among the writes. *)
Fixpoint originals (ps : list piece) : list text :=
  match ps with
  | [] => []
  | Orig t :: r => t :: originals r
  | Synth _ :: r => originals r
  end.

(** ["</%s>" % last_open_tag] *)
Definition close_of (name : text) : text := str "</" ++ name ++ str ">".

(** The body of [for idx, token in enumerate(tokens)], from the state
    [last_open_tag] on. *)
Fixpoint write_tokens (closing_tags : list text) (last_open_tag : option text)
    (tokens : list text) : result (list piece) :=
  match tokens with
  | [] => Ok []
  | token :: rest =>
      let is_closing_tag := startswith (str "</") token in
      let is_processing_tag := startswith (str "<?") token in
      let is_cdata := startswith (str "<!") token in
      let is_tag := startswith (str "<") token && negb is_cdata in
      let is_open_tag := is_tag && negb is_closing_tag && negb is_processing_tag in
      let '(flushed, last1) :=
        if is_tag then
          match last_open_tag with
          | Some name => ([Synth (close_of name)], None)
          | None => ([], last_open_tag)
          end
        else ([], last_open_tag) in
      last2 <- (if is_open_tag then
                  tag_name <- Re.findall_lts_gt_0 token ;;
                  Ok (if negb (mem (upper tag_name) closing_tags)
                      then Some tag_name else last1)
                else Ok last1) ;;
      more <- write_tokens closing_tags last2 rest ;;
      Ok (flushed ++ Orig token :: more)
  end.

(** [closing_tags = [t.upper() for t in re.findall(...)]] *)
Definition closing_tags_of (xbrl_string : text) : list text :=
  map upper (Re.findall_close xbrl_string).

Definition repair_pieces (xbrl_string : text) : result (list piece) :=
  write_tokens (closing_tags_of xbrl_string) None (Re.split xbrl_string).

(** The stream left in [self.fh] when [fh] held [xbrl_string]. *)
Definition repair (xbrl_string : text) : result text :=
  ps <- repair_pieces xbrl_string ;; Ok (render ps).

(** The constructor itself: [fh is None] returns at once. *)
Definition XBRLPreprocessedFile (fh : option text) : result (option text) :=
  match fh with
  | None => Ok None
  | Some xbrl_string => out <- repair xbrl_string ;; Ok (Some out)
  end.

(** Removing the synthesized close tags from the writes. *)
Definition is_orig (p : piece) : bool :=
  match p with Orig _ => true | Synth _ => false end.

Definition remove_synth (ps : list piece) : list piece := filter is_orig ps.

(** A piece is an input token or has the shape [</name>]. *)
Definition well_formed_piece (p : piece) : Prop :=
  match p with
  | Orig _ => True
  | Synth t => exists name, t = close_of name
  end.

(** ** Dictionaries

    A [dict] keeps its keys in insertion order; assigning to a key that is
    present replaces the value in place. *)

Definition dict (V : Type) : Type := list (text * V).

Fixpoint dict_get {V : Type} (k : text) (d : dict V) : option V :=
  match d with
  | [] => None
  | (k', v) :: r => if text_eqb k k' then Some v else dict_get k r
  end.

(** [d[k] = v] *)
Fixpoint dict_set {V : Type} (k : text) (v : V) (d : dict V) : dict V :=
  match d with
  | [] => [(k, v)]
  | (k', v') :: r => if text_eqb k k' then (k, v) :: r else (k', v') :: dict_set k v r
  end.

(** [d[k]] *)
Definition getitem {V : Type} (d : dict V) (k : text) : result V :=
  match dict_get k d with
  | Some v => Ok v
  | None => Raise KeyError
  end.

(** ** XBRL.get_GAAP: choosing the context id *)

Local Open Scope Z_scope.

(** A value of [context_ids]: the tuple [(instant,)] or
    [(found_start_date, found_end_date)] built by [parse_contexts]. *)
Inductive ctx_dates : Type :=
| Instant (date : Z)
| Duration (start_date end_date : Z).

Definition len (c : ctx_dates) : Z :=
  match c with Instant _ => 1 | Duration _ _ => 2 end.

(** The argument [context] of [get_GAAP]. *)
Inductive selector : Type :=
| Quarter                     (* "quarter" *)
| Year                        (* "year" *)
| Sel_instant                 (* "instant" *)
| Timedelta (days : Z)        (* a datetime.timedelta *)
| Days (count : Z)            (* accepted by int() *)
| Invalid.                    (* rejected by int() *)

(** [context] after the chain of tests at the head of [get_GAAP]: the
    string ["instant"] or a [timedelta]. *)
Inductive period : Type :=
| P_instant
| P_delta (days : Z).

(** [date.min.toordinal()], [date.max.toordinal()] and the largest
    number of days of a [timedelta]. *)
Definition min_ordinal : Z := 1.
Definition max_ordinal : Z := 3652059.
Definition max_days : Z := 999999999.

(** [datetime.timedelta(days=n)] *)
Definition timedelta (n : Z) : result Z :=
  if Z.abs n <=? max_days then Ok n else Raise OverflowError.

Definition normalize (context : selector) : result period :=
  match context with
  | Quarter => Ok (P_delta 90)
  | Year => Ok (P_delta 360)
  | Sel_instant => Ok P_instant
  | Timedelta d => Ok (P_delta d)
  | Days n => days <- timedelta n ;; Ok (P_delta days)
  | Invalid => Raise ValueError
  end.

Definition is_instant (context : period) : bool :=
  match context with P_instant => true | P_delta _ => false end.

(** [datetime.timedelta(weeks=1)] *)
Definition one_week : Z := 7.

(** The value of [end_date] after lines 50-53: a [datetime] at midnight,
    or a plain [date] (what [datetime.date.today()] returns). *)
Inductive moment : Type :=
| Datetime (ordinal : Z)
| Date (ordinal : Z).

Definition ordinal_of (m : moment) : Z :=
  match m with Datetime o => o | Date o => o end.

(** The day is one the type can hold. *)
Definition representable (ordinal : Z) : bool :=
  (min_ordinal <=? ordinal) && (ordinal <=? max_ordinal).

(** [end_date - context] of line 77. *)
Definition minus (end_date : moment) (delta : Z) : result moment :=
  let o := ordinal_of end_date - delta in
  if representable o then
    Ok match end_date with Datetime _ => Datetime o | Date _ => Date o end
  else Raise OverflowError.

(** [d == end_date] for a [datetime] [d] of the catalog: a [datetime] is
    never equal to a plain [date]. *)
Definition equals (d : Z) (end_date : moment) : bool :=
  match end_date with
  | Datetime o => d =? o
  | Date _ => false
  end.

(** The loop [for cid, ctx_dates in self.context_ids.items()] with its
    [break]; [None] when it runs to the end.  Under ["instant"] the second
    branch compares a [str] with a [timedelta], which raises.  The sum
    [context + timedelta(weeks=1)] is within the range of [timedelta]
    whenever line 77 has returned. *)
Fixpoint find_ctx_id (context : period) (end_date : moment)
    (items : dict ctx_dates) : result (option text) :=
  match items with
  | [] => Ok None
  | (cid, dates) :: rest =>
      if is_instant context && (len dates =? 1)
         && match dates with Instant d => equals d end_date | Duration _ _ => false end
      then Ok (Some cid)
      else if len dates =? 2 then
        match dates, context with
        | Duration found_start_date found_end_date, P_delta delta =>
            if ((delta <=? found_end_date - found_start_date)
                && (found_end_date - found_start_date <=? delta + one_week))
               && equals found_end_date end_date
            then Ok (Some cid)
            else find_ctx_id context end_date rest
        | Duration _ _, P_instant => Raise TypeError
        | Instant _, _ => find_ctx_id context end_date rest
        end
      else find_ctx_id context end_date rest
  end.

(** Lines 55-92 of [get_GAAP]: the context id the report is read at, for
    the value [end_date] holds after lines 50-53. *)
Definition choose_ctx_id (context_ids : dict ctx_dates) (context : selector)
    (end_date : moment) : result text :=
  context' <- normalize context ;;
  start_date <- match context' with
                | P_instant => Ok None
                | P_delta delta => s <- minus end_date delta ;; Ok (Some s)
                end ;;
  ctx_id <- find_ctx_id context' end_date context_ids ;;
  match ctx_id with
  | Some cid => Ok cid
  | None => Raise (PyException "no context id matched")
  end.

(** The same for an end date that is a [datetime]: one passed as such, or
    parsed from a string by line 53. *)
Definition resolve (context_ids : dict ctx_dates) (context : selector)
    (end_date : Z) : result text :=
  choose_ctx_id context_ids context (Datetime end_date).

(** The argument [end_date] of [get_GAAP]. *)
Inductive end_date_arg : Type :=
| Arg_none                    (* None, the default *)
| Arg_str (s : text)          (* a str *)
| Arg_moment (m : moment).    (* a datetime or a date *)

(** The clock and the parser of the standard library:
    [datetime.date.today()] and [datetime.datetime.strptime(s, "%Y%m%d")],
    both as day ordinals; the parser raises [ValueError] on a string it
    rejects. *)
Class Clock : Type := {
  today : Z;
  strptime : text -> result Z
}.

(** Lines 50-53. *)
Definition end_date_of {K : Clock} (end_date : end_date_arg) : result moment :=
  match end_date with
  | Arg_none => Ok (Date today)
  | Arg_str s => o <- strptime s ;; Ok (Datetime o)
  | Arg_moment m => Ok m
  end.

(** ** Extracted values *)

(** A stored number: [int(element.text)], or [float(element.text)] kept as
    the literal it is read from. *)
Inductive number : Type :=
| Int (value : Z)
| Float (literal : text).

(** What [data_processing] returns: the text of a node or the mapping
    from context id to value. *)
Inductive extracted : Type :=
| Text (s : text)
| Mapping (data : dict number).

(** The float zero, written [0.] at line 96 and [0.0] in the class
    [GAAP]. *)
Definition zero : number := Float (str "0.0").

(** The fields the dataclass [GAAP] declares, in order. *)
Definition GAAP_fields : list text :=
  map str
    ["assets"; "current_assets"; "non_current_assets"; "liabilities_and_equity";
     "liabilities"; "current_liabilities"; "noncurrent_liabilities";
     "commitments_and_contingencies"; "redeemable_noncontrolling_interest";
     "temporary_equity"; "equity"; "equity_attributable_interest";
     "equity_attributable_parent"; "stockholders_equity"; "revenues";
     "cost_of_revenue"; "gross_profit"; "costs_and_expenses";
     "other_operating_income"; "operating_income_loss";
     "nonoperating_income_loss"; "interest_and_debt_expense";
     "income_before_equity_investments"; "income_from_equity_investments";
     "income_tax_expense_benefit"; "extraordary_items_gain_loss"; "income_loss";
     "net_income_shareholders"; "preferred_stock_dividends";
     "net_income_loss_noncontrolling"; "net_income_parent"; "net_income_loss";
     "other_comprehensive_income"; "comprehensive_income";
     "comprehensive_income_parent"; "comprehensive_income_interest";
     "net_cash_flows_operating"; "net_cash_flows_investing";
     "net_cash_flows_financing"; "net_cash_flows_operating_continuing";
     "net_cash_flows_investing_continuing"; "net_cash_flows_financing_continuing";
     "net_cash_flows_operating_discontinued";
     "net_cash_flows_investing_discontinued"; "net_cash_flows_discontinued";
     "common_shares_outstanding"; "common_shares_issued";
     "common_shares_authorized"]%string.

(** [GAAP()]: the attributes of a new instance, each [0.0]. *)
Definition GAAP_new : dict number := map (fun field => (field, zero)) GAAP_fields.

(** [k_data.get(ctx_id, 0.)] *)
Definition value_at (ctx_id : text) (k_data : dict number) : number :=
  match dict_get ctx_id k_data with
  | Some v => v
  | None => zero
  end.

(** The loop [for k, k_data in self.gaap_data.items()] from the
    attributes of [gaap_obj] on; [setattr] replaces an attribute that is
    set and appends one that is not. *)
Definition set_fields (ctx_id : text) (gaap_data : dict (dict number))
    (gaap_obj : dict number) : dict number :=
  fold_left (fun obj entry => dict_set (fst entry) (value_at ctx_id (snd entry)) obj)
    gaap_data gaap_obj.

(** [get_GAAP]: the attributes of the object it returns. *)
Definition get_GAAP {K : Clock} (context_ids : dict ctx_dates)
    (gaap_data : dict (dict number)) (context : selector) (end_date : end_date_arg)
    : result (dict number) :=
  end_date' <- end_date_of end_date ;;
  ctx_id <- choose_ctx_id context_ids context end_date' ;;
  Ok (set_fields ctx_id gaap_data GAAP_new).

(** ** XBRL.data_processing *)

(** The builtins [float] and [int] on a [str]: whether [float(s)] returns,
    and the value of [int(s)]; both raise [ValueError] otherwise. *)
Class Builtins : Type := {
  float_accepts : text -> bool;
  int_of : text -> option Z
}.

(** A matched node: its attributes and its text. *)
Record element : Type := {
  attrs : dict text;
  elem_text : text
}.

Inductive value_type : Type := Number | String.

Record options : Type := {
  type : value_type;
  no_context : bool
}.

(** [{'type': 'Number', 'no_context': False}] *)
Definition default_options : options := {| type := Number; no_context := false |}.

(** The logger of the logging policy ([ignore_errors == 2]); the records
    it writes to its sink are not part of the model. *)
Inductive logger : Type := Logger.

Section DataProcessing.

Context {B : Builtins}.

Definition is_number (s : text) : bool := float_accepts s.

Definition int (s : text) : result Z :=
  match int_of s with
  | Some z => Ok z
  | None => Raise ValueError
  end.

(** The body of the [try]: the entry [data[ctx] = val] the node
    contributes, if any.  An attribute value is a [str], so the test
    [decimals is not None] holds whenever the lookup returns. *)
Definition try_body (e : element) : result (option (text * number)) :=
  ctx <- getitem (attrs e) (str "contextref") ;;
  if is_number (elem_text e) then
    decimals <- getitem (attrs e) (str "decimals") ;;
    attr_precision <- int decimals ;;
    val <- (if 0 <? attr_precision then Ok (Float (elem_text e))
            else z <- int (elem_text e) ;; Ok (Int z)) ;;
    Ok (Some (ctx, val))
  else Ok None.

(** The loop [for element in elements] from the mapping [data] on. *)
Fixpoint process (ignore_errors : Z) (log : option logger)
    (elements : list element) (data : dict number) : result (dict number) :=
  match elements with
  | [] => Ok data
  | e :: rest =>
      match try_body e with
      | Ok (Some (ctx, val)) => process ignore_errors log rest (dict_set ctx val data)
      | Ok None => process ignore_errors log rest data
      | Raise _ =>
          if ignore_errors =? 0 then Raise (XBRLException "value extraction error")
          else if ignore_errors =? 2 then
            match log with
            | Some _ => process ignore_errors log rest data
            | None => Raise AttributeError
            end
          else process ignore_errors log rest data
      end
  end.

Definition data_processing (elements : list element) (ignore_errors : Z)
    (log : option logger) (opts : options) : result extracted :=
  match type opts, elements with
  | String, e :: _ => Ok (Text (elem_text e))
  | _, _ =>
      match no_context opts, elements with
      | true, e :: _ =>
          if is_number (elem_text e) then Ok (Text (elem_text e))
          else data <- process ignore_errors log elements [] ;; Ok (Mapping data)
      | _, _ => data <- process ignore_errors log elements [] ;; Ok (Mapping data)
      end
  end.

(** ** XBRL.parse_GAAP *)

(** The results of the [find_all] calls of [parse_GAAP], in the order of
    the source; [later] holds the batches after [non_current_assets]
    with the keys they are stored under. *)
Record gaap_tags : Type := {
  assets : list element;
  current_assets : list element;
  non_current_assets : list element;
  later : list (text * list element)
}.

(** [a - b] on the values [data_processing] returns: neither [str] nor
    [dict] supports the operator. *)
Definition sub (a b : extracted) : result extracted := Raise TypeError.

Fixpoint process_later (ignore_errors : Z) (log : option logger)
    (batches : list (text * list element)) (gaap_data : dict extracted)
    : result (dict extracted) :=
  match batches with
  | [] => Ok gaap_data
  | (key, elements) :: rest =>
      v <- data_processing elements ignore_errors log default_options ;;
      process_later ignore_errors log rest (dict_set key v gaap_data)
  end.

Definition parse_GAAP (xbrl : gaap_tags) (ignore_errors : Z)
    (log : option logger) : result (dict extracted) :=
  a <- data_processing (assets xbrl) ignore_errors log default_options ;;
  let gaap_data := dict_set (str "assets") a [] in
  c <- data_processing (current_assets xbrl) ignore_errors log default_options ;;
  let gaap_data := dict_set (str "current_assets") c gaap_data in
  n <- (match non_current_assets xbrl with
        | [] => sub a c
        | _ :: _ =>
            data_processing (non_current_assets xbrl) ignore_errors log default_options
        end) ;;
  let gaap_data := dict_set (str "non_current_assets") n gaap_data in
  process_later ignore_errors log (later xbrl) gaap_data.

(** ** XBRL.from_file

    The tree library is outside the repository: the parsed tree, the
    catalog [parse_contexts] reads from it and the nodes its searches
    return are parameters. *)
Section FromFile.

Variable soup : Type.
Variable soup_maker : text -> soup.
Variable parse_contexts : soup -> result (dict ctx_dates).
Variable find_all_GAAP : soup -> gaap_tags.

(** [from_file] up to the assignment of [gaap_data]. *)
Definition from_file (xbrl_string : text) (ignore_errors : Z)
    : result (dict ctx_dates * dict extracted) :=
  let log := if ignore_errors =? 2 then Some Logger else None in
  fh <- repair xbrl_string ;;
  let xbrl := soup_maker fh in
  context_ids <- parse_contexts xbrl ;;
  gaap_data <- parse_GAAP (find_all_GAAP xbrl) ignore_errors log ;;
  Ok (context_ids, gaap_data).

End FromFile.

End DataProcessing.

(** [float] and [int] on unpadded decimal literals: an optional sign and
    digits, for [float] also a fractional part.  The instance used to
    evaluate the code on concrete nodes. *)
Module Literals.

Definition digit (c : ascii) : bool := Re.between "0" "9" c.

Fixpoint digits_value (acc : Z) (s : text) : option Z :=
  match s with
  | [] => Some acc
  | c :: r =>
      if digit c
      then digits_value (10 * acc + Z.of_nat (nat_of_ascii c - 48)) r
      else None
  end.

Definition unsigned (s : text) : option Z :=
  match s with
  | [] => None
  | _ :: _ => digits_value 0 s
  end.

Definition lit_int (s : text) : option Z :=
  match s with
  | "-" :: r => option_map Z.opp (unsigned r)
  | "+" :: r => unsigned r
  | _ => unsigned s
  end.

Fixpoint fraction_ok (s : text) : bool :=
  match s with
  | [] => true
  | c :: r => digit c && fraction_ok r
  end.

Fixpoint mantissa_ok (seen_digit : bool) (s : text) : bool :=
  match s with
  | [] => seen_digit
  | "." :: r => seen_digit && fraction_ok r
  | c :: r => digit c && mantissa_ok true r
  end.

Definition lit_float_accepts (s : text) : bool :=
  match s with
  | "-" :: r => mantissa_ok false r
  | "+" :: r => mantissa_ok false r
  | _ => mantissa_ok false s
  end.

Definition builtins : Builtins :=
  {| float_accepts := lit_float_accepts; int_of := lit_int |}.

End Literals.

(** ** Definitions used to state the properties *)

(** [datetime(y, m, d).toordinal()] for the dates of the examples. *)
Definition days_before_month (leap : bool) (m : Z) : Z :=
  nth (Z.to_nat (m - 1)) [0; 31; 59; 90; 120; 151; 181; 212; 243; 273; 304; 334] 0
  + (if leap && (2 <? m) then 1 else 0).

Definition is_leap (y : Z) : bool :=
  (y mod 4 =? 0) && (negb (y mod 100 =? 0) || (y mod 400 =? 0)).

Definition ymd (y m d : Z) : Z :=
  let p := y - 1 in
  365 * p + p / 4 - p / 100 + p / 400 + days_before_month (is_leap y) m + d.

(** The matching rule for duration selectors, in the words of the
    specification. *)
Definition qualifies (duration end_date : Z) (c : ctx_dates) : bool :=
  match c with
  | Instant _ => false
  | Duration s e =>
      (e =? end_date) && (duration <=? e - s) && (e - s <=? duration + 7)
  end.

(** First qualifying entry in insertion order, or [NoContextMatchError]. *)
Definition first_match (duration end_date : Z) (catalog : dict ctx_dates)
    : result text :=
  match find (fun entry => qualifies duration end_date (snd entry)) catalog with
  | Some (cid, _) => Ok cid
  | None => Raise (PyException "no context id matched")
  end.

(** The extraction failures the specification lists for a node of the
    contextful numeric path. *)
Definition has_contextref (e : element) : Prop :=
  dict_get (str "contextref") (attrs e) <> None.

Definition missing_contextref (e : element) : Prop :=
  dict_get (str "contextref") (attrs e) = None.

Definition malformed_decimals {B : Builtins} (e : element) : Prop :=
  has_contextref e /\ is_number (elem_text e) = true
  /\ exists d, dict_get (str "decimals") (attrs e) = Some d /\ int_of d = None.

Definition non_numeric_after_check {B : Builtins} (e : element) : Prop :=
  has_contextref e /\ is_number (elem_text e) = true
  /\ exists d p, dict_get (str "decimals") (attrs e) = Some d
                 /\ int_of d = Some p /\ p <= 0 /\ int_of (elem_text e) = None.

Definition extraction_failure {B : Builtins} (e : element) : Prop :=
  missing_contextref e \/ malformed_decimals e \/ non_numeric_after_check e.

(** A node written with string literals. *)
Definition attr (k v : string) : text * text := (str k, str v).

Definition node (attributes : dict text) (s : string) : element :=
  {| attrs := attributes; elem_text := str s |}.

(** [{'type': 'Number', 'no_context': True}] *)
Definition contextless_number : options := {| type := Number; no_context := true |}.

(** A document whose only GAAP node is an [us-gaap:assets] tag without
    [contextref]. *)
Definition assets_without_contextref : gaap_tags :=
  {| assets := [node [] "100"]; current_assets := [];
     non_current_assets := []; later := [] |}.

(** A document with one well-formed [us-gaap:assets] node and no other
    GAAP node. *)
Definition assets_only : gaap_tags :=
  {| assets := [node [attr "contextref" "c1"; attr "decimals" "0"] "100"];
     current_assets := []; non_current_assets := []; later := [] |}.

(** [XBRLException('value extraction error')] *)
Definition strict_error : exn := XBRLException "value extraction error".

(** A policy under which a failing node is passed over: neither strict,
    nor logging without a logger. *)
Definition absorbs (ignore_errors : Z) (log : option logger) : Prop :=
  ignore_errors <> 0 /\ (ignore_errors = 2 -> log <> None).

(** ** XBRL.parse_DEI *)

(** [{'type': 'String', 'no_context': True}] *)
Definition contextless_string : options := {| type := String; no_context := true |}.

(** The results of the four [find_all] calls of [parse_DEI]. *)
Record dei_tags : Type := {
  trading_symbol_tags : list element;
  company_name_tags : list element;
  shares_outstanding_tags : list element;
  public_float_tags : list element
}.

(** The fields assigned to [dei_obj]. *)
Record DEI : Type := {
  trading_symbol : extracted;
  company_name : extracted;
  shares_outstanding : extracted;
  public_float : extracted
}.

Definition parse_DEI {B : Builtins} (xbrl : dei_tags) (ignore_errors : Z)
    (log : option logger) : result DEI :=
  t <- data_processing (trading_symbol_tags xbrl) ignore_errors log contextless_string ;;
  c <- data_processing (company_name_tags xbrl) ignore_errors log contextless_string ;;
  s <- data_processing (shares_outstanding_tags xbrl) ignore_errors log contextless_number ;;
  p <- data_processing (public_float_tags xbrl) ignore_errors log contextless_number ;;
  Ok {| trading_symbol := t; company_name := c;
        shares_outstanding := s; public_float := p |}.

(** ** XBRL.parse_custom *)

(** A node returned by the search of [parse_custom]: [data.name] and
    [data.text]. *)
Record named_tag : Type := {
  tag_name : text;
  tag_text : text
}.

(** [s.split(sep)] for a one-character separator. *)
Fixpoint split_on (sep : ascii) (s : text) : list text :=
  match s with
  | [] => [[]]
  | c :: r =>
      if Ascii.eqb c sep then [] :: split_on sep r
      else match split_on sep r with
           | t :: ts => (c :: t) :: ts
           | [] => [[c]]
           end
  end.

(** [xs[1]] *)
Definition item_1 (xs : list text) : result text :=
  match xs with
  | _ :: x :: _ => Ok x
  | _ => Raise IndexError
  end.

(** The loop [for data in custom_data] from the attributes set so far on
    [custom_obj]; [setattr] replaces an attribute that is already set. *)
Fixpoint set_custom {B : Builtins} (custom_data : list named_tag)
    (custom_obj : dict text) : result (dict text) :=
  match custom_data with
  | [] => Ok custom_obj
  | data :: rest =>
      if is_number (tag_text data) then
        name <- item_1 (split_on ":" (tag_name data)) ;;
        set_custom rest (dict_set name (tag_text data) custom_obj)
      else set_custom rest custom_obj
  end.

Definition parse_custom {B : Builtins} (custom_data : list named_tag)
    : result (dict text) :=
  set_custom custom_data [].

(** ** XBRL.get_quarterlies and XBRL.get_yearlies *)

(** [s.endswith(suffix)] *)
Definition endswith (suffix s : text) : bool :=
  startswith (rev suffix) (rev s).

(** [a <= b] on [str]: code points, left to right. *)
Fixpoint text_leb (a b : text) : bool :=
  match a, b with
  | [], _ => true
  | _ :: _, [] => false
  | x :: a', y :: b' =>
      if (nat_of_ascii x <? nat_of_ascii y)%nat then true
      else if (nat_of_ascii y <? nat_of_ascii x)%nat then false
      else text_leb a' b'
  end.

Fixpoint insert_sorted (x : text) (l : list text) : list text :=
  match l with
  | [] => [x]
  | y :: r => if text_leb x y then x :: l else y :: insert_sorted x r
  end.

(** [sorted(xs)] on a list of [str]. *)
Definition sorted (xs : list text) : list text := fold_right insert_sorted [] xs.

Definition digit (c : ascii) : bool := Re.between "0" "9" c.

(** [[0-9]{4}Q[1-4]] anchored at the head of [s]. *)
Definition match_quarter (s : text) : option text :=
  match s with
  | a :: b :: c :: d :: q :: n :: _ =>
      if digit a && digit b && digit c && digit d
         && Ascii.eqb q "Q" && Re.between "1" "4" n
      then Some [a; b; c; d; q; n] else None
  | _ => None
  end.

(** [[0-9]{4}] anchored at the head of [s]. *)
Definition match_year (s : text) : option text :=
  match s with
  | a :: b :: c :: d :: _ =>
      if digit a && digit b && digit c && digit d then Some [a; b; c; d] else None
  | _ => None
  end.

(** [pattern.search(s)]: the leftmost match, [None] when there is none. *)
Fixpoint search (anchored : text -> option text) (s : text) : option text :=
  match anchored s with
  | Some m => Some m
  | None =>
      match s with
      | [] => None
      | _ :: r => search anchored r
      end
  end.

(** [int(m)] for a match [m] of [[0-9]{4}]. *)
Definition year_of (m : text) : Z :=
  fold_left (fun acc c => 10 * acc + Z.of_nat (nat_of_ascii c - 48)) m 0.

Section Periods.

(** The period label: the matched text for quarters, an [int] for years. *)
Variable label : Type.
Variable label_eqb : label -> label -> bool.
(** [search(cid).group(0)], converted; [None] when the search fails. *)
Variable label_of : text -> option label.
(** The suffix a context id must end with. *)
Variable suffix : text.

(** [d[k] = v] on the dictionary of one field. *)
Fixpoint period_set (k : label) (v : option number)
    (d : list (label * option number)) : list (label * option number) :=
  match d with
  | [] => [(k, v)]
  | (k', v') :: r =>
      if label_eqb k k' then (k, v) :: r else (k', v') :: period_set k v r
  end.

(** The comprehension [[(cid, search(cid).group(0)) for cid in ...]]:
    [group] on a failed search raises. *)
Fixpoint label_all (cids : list text) : result (list (text * label)) :=
  match cids with
  | [] => Ok []
  | cid :: rest =>
      match label_of cid with
      | None => Raise AttributeError
      | Some l => more <- label_all rest ;; Ok ((cid, l) :: more)
      end
  end.

(** [OrderedDict(pairs)] *)
Definition ordered_dict (pairs : list (text * label)) : dict label :=
  fold_left (fun d kv => dict_set (fst kv) (snd kv) d) pairs [].

(** The inner loop [for cid, period in ctx_dict.items()] for the field
    [k], from the dictionary [data[k]] on. *)
Fixpoint fill_field (gaap_data : dict (dict number)) (k : text)
    (ctx_items : dict label) (data_k : list (label * option number))
    : result (list (label * option number)) :=
  match ctx_items with
  | [] => Ok data_k
  | (cid, period) :: rest =>
      k_data <- getitem gaap_data k ;;
      fill_field gaap_data k rest (period_set period (dict_get cid k_data) data_k)
  end.

(** The outer loop [for k in field_names]. *)
Fixpoint fill_fields (gaap_data : dict (dict number)) (ctx_items : dict label)
    (field_names : list text) (data : dict (list (label * option number)))
    : result (dict (list (label * option number))) :=
  match field_names with
  | [] => Ok data
  | k :: rest =>
      data_k <- getitem data k ;;
      data_k' <- fill_field gaap_data k ctx_items data_k ;;
      fill_fields gaap_data ctx_items rest (dict_set k data_k' data)
  end.

(** The common body of [get_quarterlies] and [get_yearlies]. *)
Definition get_periods (context_ids : dict ctx_dates) (gaap_data : dict (dict number))
    (field_names : list text) : result (dict (list (label * option number))) :=
  let data := fold_left (fun d x => dict_set x [] d) field_names [] in
  let ctx_ids := filter (endswith suffix) (map fst context_ids) in
  pairs <- label_all (sorted ctx_ids) ;;
  fill_fields gaap_data (ordered_dict pairs) field_names data.

End Periods.

Definition get_quarterlies : dict ctx_dates -> dict (dict number) -> list text ->
    result (dict (list (text * option number))) :=
  get_periods text text_eqb (search match_quarter) (str "QTD").

Definition get_yearlies : dict ctx_dates -> dict (dict number) -> list text ->
    result (dict (list (Z * option number))) :=
  get_periods Z Z.eqb (fun cid => option_map year_of (search match_year cid))
    (str "Q4YTD").

(** ** Further definitions used to state the properties *)

(** [is_open_tag] of the loop of the preprocessor, as a function of the
    token. *)
Definition is_open_tag (token : text) : bool :=
  startswith (str "<") token && negb (startswith (str "<!") token)
  && negb (startswith (str "</") token) && negb (startswith (str "<?") token).

(** A token cut out by the pattern of [re.split]: [<name>] or [</name>]. *)
Definition tag_shaped (t : text) : Prop :=
  exists n, n <> [] /\ Forall (fun c => Re.name_char c = true) n
            /\ (t = "<" :: n ++ [">"] \/ t = "<" :: "/" :: n ++ [">"]).

(** The shape of the list [re.split] returns: texts separated by tags. *)
Inductive alternating : list text -> Prop :=
| alt_last (t : text) : alternating [t]
| alt_tag (t tag : text) (rest : list text) :
    tag_shaped tag -> alternating rest -> alternating (t :: tag :: rest).

(** A run of angle brackets: what the pattern [<*>] can match. *)
Definition angles (m : text) : Prop :=
  m <> [] /\ Forall (fun c => c = "<" \/ c = ">") m.

(** The entry a node contributes to the mapping, when its extraction
    returns one. *)
Definition contributes {B : Builtins} (e : element) (ctx : text) (v : number) : Prop :=
  try_body e = Ok (Some (ctx, v)).

(** The node's extraction raises. *)
Definition fails {B : Builtins} (e : element) : Prop :=
  exists x, try_body e = Raise x.

(** A token the loop cannot handle: taken for an open tag, without [>]. *)
Definition unreadable (token : text) : Prop :=
  is_open_tag token = true /\ ~ In ">" token.

(** A write is an input token, or a close tag whose name is a run of
    angle brackets. *)
Definition synthesized_from_angles (p : piece) : Prop :=
  match p with
  | Orig _ => True
  | Synth t => exists m, angles m /\ t = close_of m
  end.

(** The search of the loop of [get_GAAP] under ["instant"], in one pass:
    the first entry that is a duration context or an instant context on
    [end_date]. *)
Definition first_instant_or_duration (end_date : Z) (catalog : dict ctx_dates)
    : option (text * ctx_dates) :=
  find (fun entry => match snd entry with
                     | Instant d => d =? end_date
                     | Duration _ _ => true
                     end) catalog.

(** [Exception("no context id matched")] *)
Definition no_match : exn := PyException "no context id matched".

(** The value is a mapping from context id to number. *)
Definition is_mapping (v : extracted) : Prop := exists data, v = Mapping data.

(** A context id that [get_quarterlies] selects but cannot label. *)
Definition unlabelled_quarter (cid : text) : Prop :=
  endswith (str "QTD") cid = true /\ search match_quarter cid = None.

(** A context id that [get_yearlies] selects but cannot label. *)
Definition unlabelled_year (cid : text) : Prop :=
  endswith (str "Q4YTD") cid = true /\ search match_year cid = None.

(** The text tokens of the list [re.split] returns: every second token,
    from the first on. *)
Fixpoint texts_of (tokens : list text) : list text :=
  match tokens with
  | [] => []
  | t :: rest =>
      t :: match rest with
           | [] => []
           | _ :: rest' => texts_of rest'
           end
  end.

(** No tag of the pattern of [re.split] starts inside the text. *)
Definition tag_free (t : text) : Prop :=
  forall before after, t = before ++ after -> Re.match_tag after = None.

(** A clock for the examples: [strptime] on strings of eight digits
    [YYYYMMDD] that name a day of the calendar, and a fixed day for
    [today]. *)
Module Fixed.

Definition days_in_month (leap : bool) (m : Z) : Z :=
  nth (Z.to_nat (m - 1)) [31; 28; 31; 30; 31; 30; 31; 31; 30; 31; 30; 31] 0
  + (if leap && (m =? 2) then 1 else 0).

Definition digits (s : text) : Z :=
  fold_left (fun acc c => 10 * acc + Z.of_nat (nat_of_ascii c - 48)) s 0.

Definition strptime_8 (s : text) : result Z :=
  match s with
  | [y1; y2; y3; y4; m1; m2; d1; d2] =>
      let y := digits [y1; y2; y3; y4] in
      let m := digits [m1; m2] in
      let d := digits [d1; d2] in
      if forallb digit s
         && (1 <=? y) && (1 <=? m) && (m <=? 12)
         && (1 <=? d) && (d <=? days_in_month (is_leap y) m)
      then Ok (ymd y m d) else Raise ValueError
  | _ => Raise ValueError
  end.

Definition clock : Clock := {| today := ymd 2020 7 15; strptime := strptime_8 |}.

End Fixed.

Local Close Scope Z_scope.

(** * Properties *)

(** ** Tokenizer *)

Example split_ex :
  Re.split (str "<a>x</a><b c>y") = map str [""; "<a>"; "x"; "</a>"; "<b c>y"]%string.
Proof. reflexivity. Qed.

Example split_empty : Re.split [] = [[]].
Proof. reflexivity. Qed.

Example findall_close_ex :
  closing_tags_of (str "<a>x</a><B>y</b.c></ >") = map str ["A"; "B.C"]%string.
Proof. reflexivity. Qed.

Lemma span_name_app (s n r : text) : Re.span_name s = (n, r) -> s = n ++ r.
Proof.
  revert n r; induction s as [|c s IH]; simpl; intros n r H.
  - now inversion H.
  - destruct (Re.name_char c).
    + destruct (Re.span_name s) as [n' r'] eqn:E. inversion H; subst.
      simpl. f_equal. now apply IH.
    + now inversion H.
Qed.

Lemma span_name_all (s n r : text) :
  Re.span_name s = (n, r) -> Forall (fun c => Re.name_char c = true) n.
Proof.
  revert n r; induction s as [|c s IH]; simpl; intros n r H.
  - inversion H; constructor.
  - destruct (Re.name_char c) eqn:Ec.
    + destruct (Re.span_name s) as [n' r'] eqn:E. inversion H; subst.
      constructor; eauto.
    + inversion H; constructor.
Qed.

Lemma match_tag_app (s tag rest : text) :
  Re.match_tag s = Some (tag, rest) -> s = tag ++ rest.
Proof.
  unfold Re.match_tag. destruct s as [|c r]; [discriminate|].
  destruct (ascii_dec c "<") as [->|Hc].
  2:{ destruct c as [[] [] [] [] [] [] [] []]; try discriminate. now elim Hc. }
  assert (Hgen : forall slash r1,
    r = slash ++ r1 ->
    match Re.span_name r1 with
    | ((_ :: _) as n, ">" :: r2) => Some ("<" :: slash ++ n ++ [">"], r2)
    | _ => None
    end = Some (tag, rest) -> "<" :: r = tag ++ rest).
  { intros slash r1 -> H.
    destruct (Re.span_name r1) as [n r2] eqn:E.
    apply span_name_app in E. subst r1.
    destruct n as [|c0 n]; [discriminate|].
    destruct r2 as [|c1 r2]; [discriminate|].
    destruct (ascii_dec c1 ">") as [->|Hc1].
    - inversion H; subst. simpl. f_equal.
      repeat (rewrite <- app_assoc; simpl). reflexivity.
    - destruct c1 as [[] [] [] [] [] [] [] []]; try discriminate. now elim Hc1. }
  intros H. destruct r as [|c1 r1].
  - apply (Hgen [] []); [reflexivity | exact H].
  - destruct (ascii_dec c1 "/") as [->|Hc1].
    + apply (Hgen ["/"] r1); [reflexivity | exact H].
    + apply (Hgen [] (c1 :: r1)); [reflexivity|].
      destruct c1 as [[] [] [] [] [] [] [] []]; try exact H. now elim Hc1.
Qed.

(** The tokens of [re.split], joined, are the string that was split. *)
Lemma split_from_concat (fuel : nat) (s : text) :
  concat (Re.split_from fuel s) = s.
Proof.
  revert s; induction fuel as [|n IH]; intros s; simpl.
  - apply app_nil_r.
  - destruct s as [|c r]; [reflexivity|].
    destruct (Re.match_tag (c :: r)) as [[tag rest]|] eqn:E.
    + simpl. rewrite IH. symmetry. now apply match_tag_app.
    + specialize (IH r). destruct (Re.split_from n r) as [|t ts]; simpl in *.
      * now subst.
      * now rewrite IH.
Qed.

Lemma split_concat (s : text) : concat (Re.split s) = s.
Proof. apply split_from_concat. Qed.

(** ** The writes of the second pass *)

(** One turn of the loop: the token is written after at most one
    synthesized close tag, which closes the pending name. *)
Lemma write_tokens_cons closing_tags last token rest ps :
  write_tokens closing_tags last (token :: rest) = Ok ps ->
  exists flushed last2 more,
    ps = flushed ++ Orig token :: more
    /\ write_tokens closing_tags last2 rest = Ok more
    /\ (flushed = [] \/ exists name, last = Some name /\ flushed = [Synth (close_of name)]).
Proof.
  cbn [write_tokens].
  set (is_tag := startswith (str "<") token && negb (startswith (str "<!") token)).
  set (is_open_tag := is_tag && _ && _).
  destruct (if is_tag then
              match last with
              | Some name => ([Synth (close_of name)], None)
              | None => ([], last)
              end
            else ([], last)) as [flushed last1] eqn:Ef.
  assert (Hf : flushed = [] \/ exists name, last = Some name /\ flushed = [Synth (close_of name)]).
  { destruct is_tag; [destruct last as [name|]|]; inversion Ef; eauto. }
  unfold bind.
  destruct (if is_open_tag then _ else _) as [last2|e]; [|discriminate].
  destruct (write_tokens closing_tags last2 rest) as [more|e] eqn:Em; [|discriminate].
  intros H; inversion H; subst. eauto 7.
Qed.

Lemma write_tokens_originals closing_tags tokens : forall last ps,
  write_tokens closing_tags last tokens = Ok ps -> originals ps = tokens.
Proof.
  induction tokens as [|token rest IH]; intros last ps H.
  - now inversion H.
  - apply write_tokens_cons in H as (flushed & last2 & more & -> & Hm & Hf).
    apply IH in Hm.
    destruct Hf as [->|(name & _ & ->)]; simpl; now f_equal.
Qed.

Lemma write_tokens_well_formed closing_tags tokens : forall last ps,
  write_tokens closing_tags last tokens = Ok ps -> Forall well_formed_piece ps.
Proof.
  induction tokens as [|token rest IH]; intros last ps H.
  - inversion H; constructor.
  - apply write_tokens_cons in H as (flushed & last2 & more & -> & Hm & Hf).
    apply IH in Hm.
    destruct Hf as [->|(name & _ & ->)]; simpl; repeat constructor; eauto.
    now exists name.
Qed.

Lemma originals_remove_synth (ps : list piece) :
  map piece_text (remove_synth ps) = originals ps.
Proof.
  induction ps as [|[t|t] ps IH]; simpl; [reflexivity | now f_equal | exact IH].
Qed.

Lemma render_remove_synth (ps : list piece) :
  render (remove_synth ps) = concat (originals ps).
Proof. unfold render. now rewrite originals_remove_synth. Qed.

Lemma render_length (ps : list piece) :
  length (concat (originals ps)) <= length (render ps).
Proof.
  unfold render. induction ps as [|[t|t] ps IH]; simpl; rewrite ?length_app; lia.
Qed.

(** ** The tag name read by the second pass *)

(** On a token [<name>] or [</name>] cut out by [re.split], the pattern
    [<*>] finds the final [>] alone. *)
Lemma match_lts_gt_name (n r : text) :
  Forall (fun c => Re.name_char c = true) n -> n <> [] ->
  Re.match_lts_gt (n ++ r) = None.
Proof.
  intros Hn Hne. destruct n as [|c n]; [congruence|].
  inversion Hn as [|? ? Hc _]; subst. simpl.
  destruct c as [[] [] [] [] [] [] [] []]; try reflexivity; discriminate.
Qed.

Lemma findall_lts_gt_0_name (n : text) :
  Forall (fun c => Re.name_char c = true) n ->
  Re.findall_lts_gt_0 (n ++ [">"]) = Ok [">"].
Proof.
  induction n as [|c n IH]; intros Hn; [reflexivity|].
  inversion Hn as [|? ? Hc Hn']; subst.
  pose proof (match_lts_gt_name (c :: n) [">"] Hn ltac:(discriminate)) as E.
  cbn [app] in *. cbn [Re.findall_lts_gt_0]. rewrite E. auto.
Qed.

Lemma tag_name_of_open_tag (n : text) :
  Forall (fun c => Re.name_char c = true) n -> n <> [] ->
  Re.findall_lts_gt_0 ("<" :: n ++ [">"]) = Ok [">"].
Proof.
  intros Hn Hne. cbn [Re.findall_lts_gt_0 Re.match_lts_gt].
  rewrite match_lts_gt_name by assumption. cbn [option_map].
  now apply findall_lts_gt_0_name.
Qed.

Lemma name_char_not_markup (c : ascii) :
  Re.name_char c = true ->
  Ascii.eqb "/" c = false /\ Ascii.eqb "?" c = false /\ Ascii.eqb "!" c = false
  /\ upper_char c <> "<" /\ upper_char c <> ">".
Proof.
  destruct c as [[] [] [] [] [] [] [] []]; vm_compute; intros H;
    try discriminate H; repeat split; discriminate.
Qed.

Definition angle (c : ascii) : Prop := c = "<" \/ c = ">".

Lemma match_lts_gt_angles (s m : text) :
  Re.match_lts_gt s = Some m -> m <> [] /\ Forall angle m.
Proof.
  revert m; induction s as [|c s IH]; intros m; [discriminate|].
  destruct (ascii_dec c "<") as [->|Hlt].
  - cbn [Re.match_lts_gt].
    destruct (Re.match_lts_gt s) as [m'|]; [|discriminate].
    intros H; inversion H; subst. split; [discriminate|].
    apply Forall_cons; [left; reflexivity | now apply IH].
  - destruct (ascii_dec c ">") as [->|Hgt].
    + intros H; inversion H; subst. split; [discriminate|].
      apply Forall_cons; [right; reflexivity | constructor].
    + destruct c as [[] [] [] [] [] [] [] []]; try discriminate;
        [now elim Hgt | now elim Hlt].
Qed.

Lemma findall_lts_gt_0_angles (s m : text) :
  Re.findall_lts_gt_0 s = Ok m -> m <> [] /\ Forall angle m.
Proof.
  induction s as [|c s IH]; [discriminate|].
  cbn [Re.findall_lts_gt_0].
  destruct (Re.match_lts_gt (c :: s)) as [m'|] eqn:E.
  - intros H; inversion H; subst. now apply match_lts_gt_angles with (s := c :: s).
  - exact IH.
Qed.

Definition is_name (n : text) : Prop :=
  n <> [] /\ Forall (fun c => Re.name_char c = true) n.

Lemma match_close_name (s n r : text) :
  Re.match_close s = Some (n, r) -> is_name n /\ (length r < length s)%nat.
Proof.
  unfold Re.match_close.
  destruct s as [|c0 [|c1 r1]]; try discriminate.
  - destruct c0 as [[] [] [] [] [] [] [] []]; discriminate.
  - destruct (Re.span_name r1) as [n' r2] eqn:E.
    pose proof (span_name_all _ _ _ E) as Hall.
    apply span_name_app in E. subst r1.
    intros H.
    assert (H' : match n', r2 with
                 | _ :: _, ">" :: r3 => Some (n', r3)
                 | _, _ => None
                 end = Some (n, r)).
    { destruct c0 as [[] [] [] [] [] [] [] []]; try discriminate H;
        destruct c1 as [[] [] [] [] [] [] [] []]; try discriminate H; exact H. }
    clear H. destruct n' as [|c n']; [discriminate|].
    destruct r2 as [|c2 r3]; [discriminate|].
    destruct c2 as [[] [] [] [] [] [] [] []]; try discriminate.
    inversion H'; subst. split; [split; [discriminate | assumption]|].
    simpl. rewrite length_app. simpl. lia.
Qed.

Lemma findall_close_from_names (fuel : nat) (s : text) :
  Forall is_name (Re.findall_close_from fuel s).
Proof.
  revert s; induction fuel as [|k IH]; intros s; simpl; [constructor|].
  destruct s as [|c r]; [constructor|].
  destruct (Re.match_close (c :: r)) as [[n rest]|] eqn:E; [|apply IH].
  constructor; [|apply IH]. now apply match_close_name in E.
Qed.

(** The name read from a token is made of angle brackets, the
    known-closed names are made of class characters: the test
    [tag_name.upper() not in closing_tags] always holds. *)
Lemma tag_name_never_closed (token tag_name xbrl_string : text) :
  Re.findall_lts_gt_0 token = Ok tag_name ->
  mem (upper tag_name) (closing_tags_of xbrl_string) = false.
Proof.
  intros H. apply findall_lts_gt_0_angles in H as [Hne Hang].
  unfold mem, closing_tags_of, Re.findall_close.
  pose proof (findall_close_from_names (length xbrl_string) xbrl_string) as Hn.
  induction Hn as [|n ns [Hn1 Hn2] _ IH]; [reflexivity|].
  cbn [map existsb]. rewrite IH, orb_false_r.
  unfold text_eqb. destruct (list_eq_dec _ _ _) as [E|]; [exfalso|reflexivity].
  destruct tag_name as [|a m]; [congruence|]. destruct n as [|c n]; [congruence|].
  inversion Hang as [|? ? Ha _]; subst. inversion Hn2 as [|? ? Hc _]; subst.
  apply name_char_not_markup in Hc as (_ & _ & _ & Hlt & Hgt).
  simpl in E. inversion E as [[Ehd Etl]].
  destruct Ha as [->| ->]; [apply Hlt | apply Hgt]; now rewrite <- Ehd.
Qed.

(** X27. An open tag [<name>] always becomes the pending tag, under the
    name [>], whatever the first pass collected. *)
Lemma open_tag_always_pending (xbrl_string n : text) last rest :
  is_name n ->
  write_tokens (closing_tags_of xbrl_string) last (("<" :: n ++ [">"]) :: rest) =
  (more <- write_tokens (closing_tags_of xbrl_string) (Some [">"]) rest ;;
   Ok (match last with
       | Some name => [Synth (close_of name)]
       | None => []
       end ++ Orig ("<" :: n ++ [">"]) :: more)).
Proof.
  intros [Hne Hn].
  pose proof (tag_name_of_open_tag n Hn Hne) as Htag.
  pose proof (tag_name_never_closed _ _ xbrl_string Htag) as Hmem.
  destruct n as [|c n]; [congruence|].
  inversion Hn as [|? ? Hc _]; subst.
  apply name_char_not_markup in Hc as (Hs & Hq & Hb & _).
  cbn [write_tokens]. cbn [app] in *. rewrite Htag.
  cbn [startswith str list_ascii_of_string].
  rewrite Hs, Hq, Hb. cbn [Ascii.eqb Bool.eqb andb negb bind].
  rewrite Hmem. cbn [negb].
  destruct last; reflexivity.
Qed.

(** ** When the preprocessor returns *)

Lemma findall_lts_gt_0_returns (s : text) :
  In ">" s -> exists m, Re.findall_lts_gt_0 s = Ok m.
Proof.
  induction s as [|c s IH]; [intros []|].
  intros Hin. cbn [Re.findall_lts_gt_0].
  destruct (Re.match_lts_gt (c :: s)) as [m|] eqn:E; [now exists m|].
  destruct Hin as [->|Hin]; [discriminate E | now apply IH].
Qed.

(** The loop returns as soon as every token that starts with [<] holds a
    [>]; the tags cut out by [re.split] always do. *)
Lemma write_tokens_returns closing_tags tokens :
  Forall (fun token => startswith (str "<") token = true -> In ">" token) tokens ->
  forall last, exists ps, write_tokens closing_tags last tokens = Ok ps.
Proof.
  induction 1 as [|token rest Htok _ IH]; intros last; [now exists []|].
  cbn [write_tokens].
  destruct (startswith (str "<") token) eqn:Elt.
  - destruct (findall_lts_gt_0_returns token (Htok eq_refl)) as [m Hm]. rewrite Hm.
    destruct (negb (startswith (str "<!") token));
      destruct (negb (startswith (str "</") token));
      destruct (negb (startswith (str "<?") token));
      destruct last as [name|]; cbn [andb bind];
      match goal with
      | |- context [write_tokens closing_tags ?l rest] =>
          destruct (IH l) as [ps ->]; cbn [bind]; eauto
      end.
  - cbn [andb bind]. destruct (IH last) as [ps ->]. cbn [bind]. eauto.
Qed.

Lemma repair_returns (s : text) :
  Forall (fun token => startswith (str "<") token = true -> In ">" token) (Re.split s) ->
  exists out, repair s = Ok out.
Proof.
  intros H. unfold repair, repair_pieces.
  destruct (write_tokens_returns (closing_tags_of s) _ H None) as [ps ->].
  cbn [bind]. eauto.
Qed.

(** ** Claims on the preprocessor *)

(** C1. The specification has the pending slot hold the open tag's own
    name, closed by [</name>] at the next tag boundary, and has a tag whose
    name is known-closed never become pending.  The code reads the name
    with the pattern [<*>], which yields [>] for every tag: in [<a>x<b>] the
    tag synthesized before [<b>] is [</>>], not [</a>]; in [<a>x</a>], where
    [A] is known-closed, [<a>] still becomes pending and [</>>] is
    synthesized before [</a>]. *)
Theorem C1_pending_name_is_an_angle_bracket :
  repair (str "<a>x<b>") = Ok (str "<a>x</>><b>")
  /\ closing_tags_of (str "<a>x</a>") = [str "A"]
  /\ repair (str "<a>x</a>") = Ok (str "<a>x</>></a>")
  /\ repair_pieces (str "<a>x</a>")
     = Ok [Orig []; Orig (str "<a>"); Orig (str "x"); Synth (str "</>>");
           Orig (str "</a>"); Orig []].
Proof. repeat split; reflexivity. Qed.

(** C2. Idempotence fails on the code: repairing [<a><b>] gives
    [<a></>><b>], and repairing that gives [<a></>></>><b>]. *)
Theorem C2_repair_not_idempotent :
  exists s1 s2,
    repair (str "<a><b>") = Ok s1 /\ repair s1 = Ok s2 /\ s1 <> s2
    /\ s1 = str "<a></>><b>" /\ s2 = str "<a></>></>><b>".
Proof.
  exists (str "<a></>><b>"), (str "<a></>></>><b>").
  repeat split; try reflexivity. discriminate.
Qed.

(** C3. The preprocessor raises [IndexError] on the one-character stream
    [<]: the token starts with [<], is taken for an open tag, and the
    pattern [<*>] has no match in it. *)
Theorem C3_repair_raises_IndexError :
  Re.split (str "<") = [str "<"]
  /\ repair (str "<") = Raise IndexError
  /\ XBRLPreprocessedFile (Some (str "<")) = Raise IndexError.
Proof. repeat split; reflexivity. Qed.

(** C9. Whenever the preprocessor produces an output stream, that stream
    is the input's tokens, in order and unaltered, with synthesized close
    tags of the shape [</name>] inserted between them: the output is at
    least as long as the input, and removing the synthesized close tags
    gives back the input stream. *)
Theorem C9_repair_inserts_only (s out : text) :
  repair s = Ok out ->
  exists ps,
    repair_pieces s = Ok ps
    /\ out = render ps
    /\ originals ps = Re.split s
    /\ concat (Re.split s) = s
    /\ Forall well_formed_piece ps
    /\ (length s <= length out)%nat
    /\ render (remove_synth ps) = s.
Proof.
  unfold repair, bind. destruct (repair_pieces s) as [ps|e] eqn:E; [|discriminate].
  intros H; inversion H; subst. exists ps.
  pose proof (write_tokens_originals _ _ _ _ E) as Ho.
  pose proof (split_concat s) as Hs.
  repeat split; auto.
  - eapply write_tokens_well_formed; eauto.
  - rewrite <- Hs at 1. rewrite <- Ho. apply render_length.
  - rewrite render_remove_synth, Ho. exact Hs.
Qed.

Lemma C9_repair_inserts_only_witness :
  exists ps,
    repair_pieces (str "<a>x<b>") = Ok ps
    /\ str "<a>x</>><b>" = render ps
    /\ originals ps = Re.split (str "<a>x<b>")
    /\ concat (Re.split (str "<a>x<b>")) = str "<a>x<b>"
    /\ Forall well_formed_piece ps
    /\ (length (str "<a>x<b>") <= length (str "<a>x</>><b>"))%nat
    /\ render (remove_synth ps) = str "<a>x<b>".
Proof.
  apply (C9_repair_inserts_only (str "<a>x<b>") (str "<a>x</>><b>")).
  reflexivity.
Defined.

(** ** Claims on the context resolver *)

Local Open Scope Z_scope.

Example ymd_2020_01_01 : ymd 2020 1 1 = 737425.
Proof. reflexivity. Qed.

Lemma find_ctx_id_delta (duration end_date : Z) (catalog : dict ctx_dates) :
  find_ctx_id (P_delta duration) (Datetime end_date) catalog =
  Ok (option_map fst
        (find (fun entry => qualifies duration end_date (snd entry)) catalog)).
Proof.
  induction catalog as [|[cid [d|s e]] rest IH]; [reflexivity| |].
  - cbn [find_ctx_id find snd qualifies is_instant andb len]. exact IH.
  - cbn [find_ctx_id find snd qualifies is_instant andb len equals].
    change (2 =? 2) with true. cbv iota. unfold one_week.
    destruct (e =? end_date), (duration <=? e - s), (e - s <=? duration + 7);
      cbn [andb]; try exact IH; reflexivity.
Qed.

(** With a duration of [duration] days, line 77 raises when the start date
    leaves the range of [datetime]; otherwise the loop is the first-match
    search. *)
Lemma resolve_delta (duration end_date : Z) (catalog : dict ctx_dates) (context : selector) :
  normalize context = Ok (P_delta duration) ->
  resolve catalog context end_date =
  if representable (end_date - duration) then first_match duration end_date catalog
  else Raise OverflowError.
Proof.
  intros H. unfold resolve, choose_ctx_id, first_match, minus. rewrite H.
  cbn [bind ordinal_of].
  destruct (representable (end_date - duration)); [|reflexivity].
  cbn [bind]. rewrite find_ctx_id_delta. cbn [bind].
  destruct (find _ catalog) as [[cid c]|]; reflexivity.
Qed.

(** Once line 77 has returned for a [datetime], the sum
    [context + timedelta(weeks=1)] of the loop is a [timedelta]. *)
Lemma week_later_is_timedelta (duration end_date : Z) :
  representable end_date = true -> representable (end_date - duration) = true ->
  timedelta (duration + one_week) = Ok (duration + one_week).
Proof.
  unfold representable, timedelta, min_ordinal, max_ordinal, max_days, one_week.
  intros H1 H2. apply andb_prop in H1 as [H1 H1'], H2 as [H2 H2'].
  apply Z.leb_le in H1, H1', H2, H2'.
  destruct (Z.abs (duration + 7) <=? 999999999) eqn:E; [reflexivity|].
  apply Z.leb_gt in E. lia.
Qed.

(** C4, amended. With a duration selector (["quarter"]: 90 days, ["year"]:
    360 days, a day count [d]: [d] days) and a [datetime] end date,
    [resolve] raises [OverflowError] before it reads the catalog when the
    day count is not one a [timedelta] can hold or when [end_date] less
    the duration is not a day a [datetime] can hold; otherwise it returns
    the first entry, in insertion order, that is a duration context ending
    on [end_date] whose span lies in [[duration, duration + 7]], and fails
    with the no-match error when no entry qualifies. *)
Theorem C4_resolve_duration_in_range (catalog : dict ctx_dates) (end_date : Z) :
  resolve catalog Quarter end_date
  = (if representable (end_date - 90) then first_match 90 end_date catalog
     else Raise OverflowError)
  /\ resolve catalog Year end_date
     = (if representable (end_date - 360) then first_match 360 end_date catalog
        else Raise OverflowError)
  /\ forall d : Z,
       resolve catalog (Days d) end_date
       = if Z.abs d <=? max_days then
           if representable (end_date - d) then first_match d end_date catalog
           else Raise OverflowError
         else Raise OverflowError.
Proof.
  split; [|split]; try (now apply resolve_delta).
  intros d. destruct (Z.abs d <=? max_days) eqn:E.
  - apply resolve_delta. cbn [normalize]. unfold timedelta. now rewrite E.
  - unfold resolve, choose_ctx_id. cbn [normalize]. unfold timedelta. now rewrite E.
Qed.

(** C4 as stated fails outside the range of [datetime]: for a count of
    1000000 days and the end date 2020-03-31 no entry of the empty catalog
    qualifies, and the code raises [OverflowError] at line 77, not the
    no-match error. *)
Lemma C4_out_of_range_raises_OverflowError :
  resolve [] (Days 1000000) (ymd 2020 3 31) = Raise OverflowError
  /\ first_match 1000000 (ymd 2020 3 31) [] = Raise (PyException "no context id matched")
  /\ resolve [] (Days 1000000) (ymd 2020 3 31) <> first_match 1000000 (ymd 2020 3 31) [].
Proof. repeat split; try reflexivity. discriminate. Qed.

Example resolve_quarter_ex :
  let catalog := [(str "C1", Duration (ymd 2020 1 1) (ymd 2020 3 31))] in
  resolve catalog Quarter (ymd 2020 3 31) = Ok (str "C1")
  /\ resolve catalog Quarter (ymd 2020 4 30) = Raise (PyException "no context id matched").
Proof. split; reflexivity. Qed.

(** Under ["instant"] the loop stops with [TypeError] at the first
    duration entry it reaches. *)
Lemma find_ctx_id_instant_duration (end_date : moment) (cid : text) (s e : Z)
    (rest : dict ctx_dates) :
  find_ctx_id P_instant end_date ((cid, Duration s e) :: rest) = Raise TypeError.
Proof. reflexivity. Qed.

(** C5. For the catalog [{"I1": instant(2020-06-30)}] the instant selector
    returns ["I1"]; but a duration entry is not skipped: with the duration
    context ["D1"] ahead of ["I1"], the same request raises [TypeError]. *)
Theorem C5_instant_raises_on_duration_entry :
  resolve [(str "I1", Instant (ymd 2020 6 30))] Sel_instant (ymd 2020 6 30)
  = Ok (str "I1")
  /\ resolve [(str "D1", Duration (ymd 2020 1 1) (ymd 2020 3 31));
              (str "I1", Instant (ymd 2020 6 30))] Sel_instant (ymd 2020 6 30)
     = Raise TypeError.
Proof. split; reflexivity. Qed.

Local Close Scope Z_scope.

(** ** The extraction loop *)

Section Extraction.

Context {B : Builtins}.

Local Open Scope Z_scope.

Lemma data_processing_default elements ignore_errors log :
  data_processing elements ignore_errors log default_options =
  (data <- process ignore_errors log elements [] ;; Ok (Mapping data)).
Proof. destruct elements; reflexivity. Qed.

Lemma extraction_failure_raises (e : element) :
  extraction_failure e -> exists x, try_body e = Raise x.
Proof.
  unfold try_body, getitem, int.
  intros [Hm | [(Hc & Hn & d & Hd & Hi) | (Hc & Hn & d & p & Hd & Hi & Hp & Ht)]].
  - unfold missing_contextref in Hm. rewrite Hm. now exists KeyError.
  - unfold has_contextref in Hc.
    destruct (dict_get (str "contextref") (attrs e)) as [ctx|]; [|congruence].
    cbn [bind]. rewrite Hn, Hd. cbn [bind]. rewrite Hi. now exists ValueError.
  - unfold has_contextref in Hc.
    destruct (dict_get (str "contextref") (attrs e)) as [ctx|]; [|congruence].
    cbn [bind]. rewrite Hn, Hd. cbn [bind]. rewrite Hi. cbn [bind].
    replace (0 <? p) with false by (symmetry; apply Z.ltb_ge; exact Hp).
    rewrite Ht. now exists ValueError.
Qed.

(** Strict policy: one failing node anywhere in the batch and the loop
    raises. *)
Lemma process_strict_raises before e after log x : forall data,
  try_body e = Raise x ->
  process 0 log (before ++ e :: after) data = Raise strict_error.
Proof.
  induction before as [|b before IH]; intros data He; cbn [app process].
  - now rewrite He.
  - destruct (try_body b) as [[[ctx val]|]|y]; auto.
Qed.

(** A policy that absorbs failures passes over the failing node. *)
Lemma process_skips before e after ignore_errors log x : forall data,
  absorbs ignore_errors log ->
  try_body e = Raise x ->
  process ignore_errors log (before ++ e :: after) data =
  process ignore_errors log (before ++ after) data.
Proof.
  intros data [H0 H2] He. revert data.
  induction before as [|b before IH]; intros data; cbn [app process].
  - rewrite He. apply Z.eqb_neq in H0. rewrite H0.
    destruct (ignore_errors =? 2) eqn:E2; [|reflexivity].
    apply Z.eqb_eq in E2. destruct log; [reflexivity | now elim (H2 E2)].
  - destruct (try_body b) as [[[ctx val]|]|y]; auto.
    destruct (ignore_errors =? 0); [reflexivity|].
    destruct (ignore_errors =? 2); [destruct log|]; auto.
Qed.

(** Under such a policy the loop always returns a mapping. *)
Lemma process_returns elements ignore_errors log : forall data,
  absorbs ignore_errors log ->
  exists data', process ignore_errors log elements data = Ok data'.
Proof.
  intros data [H0 H2]. revert data.
  induction elements as [|e rest IH]; intros data; cbn [process]; [eauto|].
  destruct (try_body e) as [[[ctx val]|]|y]; auto.
  apply Z.eqb_neq in H0. rewrite H0.
  destruct (ignore_errors =? 2) eqn:E2; [|auto].
  apply Z.eqb_eq in E2. destruct log; [auto | now elim (H2 E2)].
Qed.

(** A numeric node with a context but no [decimals] attribute fails:
    the lookup raises [KeyError] before the default [0] can apply. *)
Lemma try_body_without_decimals (e : element) (ctx : text) :
  dict_get (str "contextref") (attrs e) = Some ctx ->
  is_number (elem_text e) = true ->
  dict_get (str "decimals") (attrs e) = None ->
  try_body e = Raise KeyError.
Proof.
  intros Hc Hn Hd. unfold try_body, getitem. now rewrite Hc, Hn, Hd.
Qed.

(** With [decimals] present and well formed, its sign alone chooses
    between [float(text)] and [int(text)]. *)
Lemma try_body_with_decimals (e : element) (ctx d : text) (p : Z) :
  dict_get (str "contextref") (attrs e) = Some ctx ->
  is_number (elem_text e) = true ->
  dict_get (str "decimals") (attrs e) = Some d ->
  int_of d = Some p ->
  try_body e =
  if 0 <? p then Ok (Some (ctx, Float (elem_text e)))
  else z <- int (elem_text e) ;; Ok (Some (ctx, Int z)).
Proof.
  intros Hc Hn Hd Hp. unfold try_body, getitem. rewrite Hc, Hn, Hd.
  cbn [bind]. unfold int at 1. rewrite Hp. cbn [bind].
  destruct (0 <? p); [reflexivity|].
  unfold int, bind. now destruct (int_of (elem_text e)).
Qed.

(** The contextless numeric path returns the first node's text when
    that text is numeric. *)
Lemma contextless_number_numeric e rest ignore_errors log :
  is_number (elem_text e) = true ->
  data_processing (e :: rest) ignore_errors log contextless_number
  = Ok (Text (elem_text e)).
Proof.
  intros H. unfold data_processing.
  cbn [type no_context contextless_number default_options]. now rewrite H.
Qed.

(** Otherwise it goes on to the loop of the contextful path. *)
Lemma contextless_number_falls_through e rest ignore_errors log :
  is_number (elem_text e) = false ->
  data_processing (e :: rest) ignore_errors log contextless_number
  = data_processing (e :: rest) ignore_errors log default_options.
Proof.
  intros H. unfold data_processing.
  cbn [type no_context contextless_number default_options]. now rewrite H.
Qed.

(** C6. On the contextful numeric path, a node that fails extraction
    (missing [contextref], malformed [decimals], or text that passes the
    numeric check but is rejected by [int]) makes the whole batch raise
    the extraction error under the strict policy; under the permissive
    policy the result is the mapping of the batch without that node. *)
Theorem C6_strict_aborts_permissive_skips
    (before after : list element) (e : element) (log : option logger) :
  extraction_failure e ->
  data_processing (before ++ e :: after) 0 log default_options = Raise strict_error
  /\ forall ignore_errors, ignore_errors <> 0 -> ignore_errors <> 2 ->
       data_processing (before ++ e :: after) ignore_errors log default_options
       = data_processing (before ++ after) ignore_errors log default_options
       /\ exists data,
            data_processing (before ++ e :: after) ignore_errors log default_options
            = Ok (Mapping data).
Proof.
  intros Hf. apply extraction_failure_raises in Hf as [x Hx].
  rewrite !data_processing_default. split.
  - now rewrite (process_strict_raises _ _ _ _ x).
  - intros ie H0 H2. assert (Ha : absorbs ie log) by (split; [assumption | tauto]).
    rewrite !data_processing_default.
    rewrite (process_skips _ _ _ _ _ x) by assumption. split; [reflexivity|].
    destruct (process_returns (before ++ after) ie log [] Ha) as [d Hd].
    exists d. now rewrite Hd.
Qed.

End Extraction.

Lemma C6_strict_aborts_permissive_skips_witness :
  let before := [node [attr "contextref" "c1"; attr "decimals" "0"] "5"] in
  let e := node [attr "decimals" "0"] "7" in
  let after := [node [attr "contextref" "c2"; attr "decimals" "2"] "9"] in
  @data_processing Literals.builtins (before ++ e :: after) 0 None default_options
  = Raise strict_error
  /\ forall ignore_errors, (ignore_errors <> 0 -> ignore_errors <> 2 ->
       @data_processing Literals.builtins (before ++ e :: after) ignore_errors None
         default_options
       = @data_processing Literals.builtins (before ++ after) ignore_errors None
           default_options
       /\ exists data,
            @data_processing Literals.builtins (before ++ e :: after) ignore_errors
              None default_options
            = Ok (Mapping data))%Z.
Proof.
  intros before e after.
  apply (@C6_strict_aborts_permissive_skips Literals.builtins before after e None).
  left. reflexivity.
Defined.

(** ** Claims on single nodes *)

(** C7. For the text [1000] with a context, [decimals="2"] stores
    [float("1000")] and [decimals="0"] stores the integer [1000]; but an
    absent [decimals] attribute is not read as [0]: the lookup fails, so
    the strict policy raises and the permissive policy stores nothing. *)
Theorem C7_absent_decimals_is_a_failure :
  let ctx := attr "contextref" "c1" in
  @data_processing Literals.builtins
    [node [ctx; attr "decimals" "2"] "1000"] 0 None default_options
  = Ok (Mapping [(str "c1", Float (str "1000"))])
  /\ @data_processing Literals.builtins
       [node [ctx; attr "decimals" "0"] "1000"] 0 None default_options
     = Ok (Mapping [(str "c1", Int 1000)])
  /\ @try_body Literals.builtins (node [ctx] "1000") = Raise KeyError
  /\ @data_processing Literals.builtins [node [ctx] "1000"] 0 None default_options
     = Raise strict_error
  /\ @data_processing Literals.builtins [node [ctx] "1000"] 1 None default_options
     = Ok (Mapping []).
Proof. repeat split; reflexivity. Qed.

(** C8. On the contextless numeric path a numeric first node is returned
    as text; a first node that is not numeric sends the batch through the
    loop of the contextful path, which raises under the strict policy when
    a node has no [contextref], and otherwise returns the mapping of the
    later nodes. *)
Theorem C8_contextless_number_reaches_the_loop :
  @data_processing Literals.builtins
    [node [] "42"; node [] "abc"] 0 None contextless_number
  = Ok (Text (str "42"))
  /\ @data_processing Literals.builtins [node [] "abc"] 0 None contextless_number
     = Raise strict_error
  /\ @data_processing Literals.builtins
       [node [attr "contextref" "c1"] "abc";
        node [attr "contextref" "c2"; attr "decimals" "0"] "5"]
       1 None contextless_number
     = Ok (Mapping [(str "c2", Int 5)]).
Proof. repeat split; reflexivity. Qed.

(** ** Claims on parse_GAAP *)

Section ParseGAAP.

Context {B : Builtins}.

Local Open Scope Z_scope.

(** With no non-current-assets node, [parse_GAAP] is the two
    extractions followed by the subtraction of their results. *)
Lemma parse_GAAP_without_non_current (xbrl : gaap_tags) ignore_errors log :
  non_current_assets xbrl = [] ->
  parse_GAAP xbrl ignore_errors log =
  (a <- data_processing (assets xbrl) ignore_errors log default_options ;;
   c <- data_processing (current_assets xbrl) ignore_errors log default_options ;;
   Raise TypeError).
Proof.
  intros H. unfold parse_GAAP. rewrite H.
  destruct (data_processing (assets xbrl) _ _ _); [|reflexivity].
  destruct (data_processing (current_assets xbrl) _ _ _); reflexivity.
Qed.

Lemma process_strict_cases elements log : forall data x,
  process 0 log elements data = Raise x -> x = strict_error.
Proof.
  induction elements as [|e rest IH]; intros data x; cbn [process]; [discriminate|].
  destruct (try_body e) as [[[ctx val]|]|y]; eauto.
  cbn. now intros [= <-].
Qed.

Lemma data_processing_strict_cases elements log x :
  data_processing elements 0 log default_options = Raise x -> x = strict_error.
Proof.
  rewrite data_processing_default.
  destruct (process 0 log elements []) as [d|y] eqn:E; [discriminate|].
  intros [= <-]. now apply process_strict_cases in E.
Qed.

Lemma data_processing_returns elements ignore_errors log :
  absorbs ignore_errors log ->
  exists data,
    data_processing elements ignore_errors log default_options = Ok (Mapping data).
Proof.
  intros Ha. rewrite data_processing_default.
  destruct (process_returns elements ignore_errors log [] Ha) as [d Hd].
  exists d. now rewrite Hd.
Qed.

(** Whatever the policy, [parse_GAAP] gives no result on such a
    document. *)
Lemma parse_GAAP_no_result (xbrl : gaap_tags) ignore_errors log :
  non_current_assets xbrl = [] ->
  exists x, parse_GAAP xbrl ignore_errors log = Raise x.
Proof.
  intros H. rewrite parse_GAAP_without_non_current by assumption.
  destruct (data_processing (assets xbrl) _ _ _) as [a|x]; [|now exists x].
  destruct (data_processing (current_assets xbrl) _ _ _) as [c|x];
    [now exists TypeError | now exists x].
Qed.

Variable soup : Type.
Variable soup_maker : text -> soup.
Variable parse_contexts : soup -> result (dict ctx_dates).
Variable find_all_GAAP : soup -> gaap_tags.

(** C10, amended. Once preprocessing and context parsing have returned,
    a document without non-current-assets node yields no parse result:
    [from_file] raises [TypeError] at the subtraction of the two mappings
    whenever both extractions before it return, which is always so under
    a policy other than strict; under the strict policy the only other
    outcome is the extraction error of a failing assets or
    current-assets node. *)
Theorem C10_no_result_without_non_current_assets
    (xbrl_string fh : text) (context_ids : dict ctx_dates) (ignore_errors : Z) :
  repair xbrl_string = Ok fh ->
  parse_contexts (soup_maker fh) = Ok context_ids ->
  non_current_assets (find_all_GAAP (soup_maker fh)) = [] ->
  let xbrl := find_all_GAAP (soup_maker fh) in
  let log := if ignore_errors =? 2 then Some Logger else None in
  let run := from_file soup soup_maker parse_contexts find_all_GAAP
               xbrl_string ignore_errors in
  (exists x, run = Raise x /\ parse_GAAP xbrl ignore_errors log = Raise x
             /\ (x = TypeError \/ (ignore_errors = 0 /\ x = strict_error)))
  /\ (ignore_errors <> 0 -> run = Raise TypeError)
  /\ (forall a c,
        data_processing (assets xbrl) ignore_errors log default_options = Ok a ->
        data_processing (current_assets xbrl) ignore_errors log default_options = Ok c ->
        run = Raise TypeError).
Proof.
  intros Hr Hc Hn xbrl log run.
  assert (Hrun : run = (gaap_data <- parse_GAAP xbrl ignore_errors log ;;
                        Ok (context_ids, gaap_data))).
  { unfold run, from_file. rewrite Hr. cbn [bind]. now rewrite Hc. }
  pose proof (parse_GAAP_without_non_current xbrl ignore_errors log Hn) as Hp.
  assert (Habs : ignore_errors <> 0 -> absorbs ignore_errors log).
  { intros H0. split; [assumption|]. intros ->. discriminate. }
  repeat split.
  - destruct (Z.eq_dec ignore_errors 0) as [E0|E0].
    + destruct (parse_GAAP_no_result xbrl ignore_errors log Hn) as [x Hx].
      exists x. rewrite Hrun, Hx. repeat split.
      rewrite Hp in Hx. subst ignore_errors.
      destruct (data_processing (assets xbrl) 0 log default_options) as [a|y] eqn:Ea.
      * destruct (data_processing (current_assets xbrl) 0 log default_options)
          as [c|y] eqn:Ec; cbn in Hx; injection Hx as <-; [now left|].
        right. split; [reflexivity|]. now apply data_processing_strict_cases in Ec.
      * cbn in Hx. injection Hx as <-.
        right. split; [reflexivity|]. now apply data_processing_strict_cases in Ea.
    + exists TypeError. rewrite Hrun, Hp.
      destruct (data_processing_returns (assets xbrl) _ _ (Habs E0)) as [a ->].
      destruct (data_processing_returns (current_assets xbrl) _ _ (Habs E0)) as [c ->].
      repeat split. now left.
  - intros E0. rewrite Hrun, Hp.
    destruct (data_processing_returns (assets xbrl) _ _ (Habs E0)) as [a ->].
    now destruct (data_processing_returns (current_assets xbrl) _ _ (Habs E0)) as [c ->].
  - intros a c Ha Hc'. now rewrite Hrun, Hp, Ha, Hc'.
Qed.

End ParseGAAP.

(** C10 as stated fails under the strict policy: the [us-gaap:assets] node
    without [contextref] makes the first extraction raise, and the
    subtraction is never reached. *)
Lemma C10_strict_policy_raises_before_subtraction :
  non_current_assets assets_without_contextref = []
  /\ @parse_GAAP Literals.builtins assets_without_contextref 0 None = Raise strict_error
  /\ @parse_GAAP Literals.builtins assets_without_contextref 0 None <> Raise TypeError
  /\ @from_file Literals.builtins gaap_tags (fun _ => assets_without_contextref)
       (fun _ => Ok []) (fun xbrl => xbrl) (str "<xbrl>") 0
     <> Raise TypeError.
Proof. repeat split; try reflexivity; discriminate. Qed.

Lemma C10_no_result_without_non_current_assets_witness :
  let run := @from_file Literals.builtins gaap_tags (fun _ => assets_only)
               (fun _ => Ok []) (fun xbrl => xbrl) (str "<xbrl>") 1 in
  (exists x, run = Raise x
             /\ @parse_GAAP Literals.builtins assets_only 1 None = Raise x
             /\ (x = TypeError \/ (1 = 0 /\ x = strict_error)%Z))
  /\ ((1 <> 0)%Z -> run = Raise TypeError)
  /\ (forall a c,
        @data_processing Literals.builtins (assets assets_only) 1 None default_options
        = Ok a ->
        @data_processing Literals.builtins (current_assets assets_only) 1 None
          default_options = Ok c ->
        run = Raise TypeError).
Proof.
  apply (@C10_no_result_without_non_current_assets Literals.builtins gaap_tags
           (fun _ => assets_only) (fun _ => Ok []) (fun xbrl => xbrl)
           (str "<xbrl>") (str "<xbrl>") [] 1%Z); reflexivity.
Defined.

(** * Further properties of the module *)

(** ** The tokens of [re.split] *)

Lemma span_name_stops (s n r : text) :
  Re.span_name s = (n, r) ->
  match r with c :: _ => Re.name_char c = false | [] => True end.
Proof.
  revert n r; induction s as [|c s IH]; simpl; intros n r H.
  - now inversion H.
  - destruct (Re.name_char c) eqn:Ec.
    + destruct (Re.span_name s) as [n' r'] eqn:E. inversion H; subst. now apply IH with n'.
    + inversion H; subst. exact Ec.
Qed.

(** What an anchored match of the tag pattern looks like. *)
Lemma match_tag_inv (s tag rest : text) :
  Re.match_tag s = Some (tag, rest) ->
  exists slash n,
    (slash = [] \/ slash = ["/"])
    /\ n <> [] /\ Forall (fun c => Re.name_char c = true) n
    /\ tag = "<" :: slash ++ n ++ [">"]
    /\ s = tag ++ rest
    /\ Re.span_name (n ++ ">" :: rest) = (n, ">" :: rest).
Proof.
  intros H. pose proof (match_tag_app _ _ _ H) as Happ.
  unfold Re.match_tag in H. destruct s as [|c r]; [discriminate|].
  destruct (ascii_dec c "<") as [->|Hc].
  2:{ destruct c as [[] [] [] [] [] [] [] []]; try discriminate. now elim Hc. }
  assert (Hgen : forall slash r1,
    (slash = [] \/ slash = ["/"]) ->
    match Re.span_name r1 with
    | ((_ :: _) as n, ">" :: r2) => Some ("<" :: slash ++ n ++ [">"], r2)
    | _ => None
    end = Some (tag, rest) ->
    exists slash n,
      (slash = [] \/ slash = ["/"])
      /\ n <> [] /\ Forall (fun c => Re.name_char c = true) n
      /\ tag = "<" :: slash ++ n ++ [">"]
      /\ Re.span_name (n ++ ">" :: rest) = (n, ">" :: rest)).
  { intros slash r1 Hs H1.
    destruct (Re.span_name r1) as [n r2] eqn:E.
    pose proof (span_name_all _ _ _ E) as Hall.
    pose proof (span_name_app _ _ _ E) as Hr1.
    destruct n as [|c0 n]; [discriminate|].
    destruct r2 as [|c1 r2]; [discriminate|].
    destruct (ascii_dec c1 ">") as [->|Hc1].
    - inversion H1; subst. exists slash, (c0 :: n).
      repeat split; auto; discriminate.
    - destruct c1 as [[] [] [] [] [] [] [] []]; try discriminate. now elim Hc1. }
  destruct r as [|c1 r1].
  - destruct (Hgen [] [] (or_introl eq_refl) H) as (sl & n & ? & ? & ? & ? & ?).
    exists sl, n. repeat split; auto.
  - destruct (ascii_dec c1 "/") as [->|Hc1].
    + destruct (Hgen ["/"] r1 (or_intror eq_refl) H) as (sl & n & ? & ? & ? & ? & ?).
      exists sl, n. repeat split; auto.
    + assert (H' : match Re.span_name (c1 :: r1) with
                   | ((_ :: _) as n, ">" :: r2) => Some ("<" :: [] ++ n ++ [">"], r2)
                   | _ => None
                   end = Some (tag, rest)).
      { destruct c1 as [[] [] [] [] [] [] [] []]; try exact H. now elim Hc1. }
      destruct (Hgen [] (c1 :: r1) (or_introl eq_refl) H') as (sl & n & ? & ? & ? & ? & ?).
      exists sl, n. repeat split; auto.
Qed.

Lemma match_tag_shaped (s tag rest : text) :
  Re.match_tag s = Some (tag, rest) -> tag_shaped tag /\ (length rest < length s)%nat.
Proof.
  intros H. apply match_tag_inv in H as (slash & n & Hs & Hne & Hn & -> & -> & _).
  split.
  - exists n. repeat split; auto. destruct Hs as [-> | ->]; [left | right]; reflexivity.
  - rewrite length_app. simpl. lia.
Qed.

(** X1. [re.split] returns texts separated by tags: an odd number of
    tokens, every second one of the shape [<name>] or [</name>], and
    joined together they are the string that was split. *)
Theorem split_alternating (s : text) :
  alternating (Re.split s) /\ concat (Re.split s) = s.
Proof.
  split; [|apply split_concat].
  unfold Re.split. generalize (length s) as fuel. intros fuel. revert s.
  induction fuel as [|n IH]; intros s; cbn [Re.split_from]; [constructor|].
  destruct s as [|c r]; [constructor|].
  destruct (Re.match_tag (c :: r)) as [[tag rest]|] eqn:E.
  - apply match_tag_shaped in E as [Ht _]. now constructor.
  - specialize (IH r). destruct (Re.split_from n r) as [|t ts]; [constructor|].
    inversion IH; subst; now constructor.
Qed.

(** The fuel of the tokenizer is enough: any bound from the length of the
    string on gives the same tokens. *)
Lemma split_from_fuel (n : nat) : forall (m : nat) (s : text),
  (length s <= n)%nat -> (length s <= m)%nat -> Re.split_from n s = Re.split_from m s.
Proof.
  induction n as [|n IH]; intros m s Hn Hm.
  - destruct s; [|simpl in Hn; lia]. destruct m; reflexivity.
  - destruct m as [|m].
    + destruct s; [reflexivity | simpl in Hm; lia].
    + cbn [Re.split_from]. destruct s as [|c r]; [reflexivity|].
      simpl in Hn, Hm.
      destruct (Re.match_tag (c :: r)) as [[tag rest]|] eqn:E.
      * apply match_tag_shaped in E as [_ Hl]. simpl in Hl.
        rewrite (IH m rest) by lia. reflexivity.
      * rewrite (IH m r) by lia. reflexivity.
Qed.

(** A stream without [<] is one text token. *)
Lemma split_from_plain (fuel : nat) (s : text) :
  ~ In "<" s -> Re.split_from fuel s = [s].
Proof.
  revert s; induction fuel as [|n IH]; intros s Hs; [reflexivity|].
  cbn [Re.split_from]. destruct s as [|c r]; [reflexivity|].
  assert (Hc : c <> "<") by (intros ->; apply Hs; now left).
  assert (E : Re.match_tag (c :: r) = None).
  { unfold Re.match_tag. destruct c as [[] [] [] [] [] [] [] []]; try reflexivity.
    now elim Hc. }
  rewrite E, IH; [reflexivity|]. intros Hin. apply Hs. now right.
Qed.

(** X2. A stream that holds no [<] passes through the preprocessor
    unchanged. *)
Theorem repair_plain_text (s : text) :
  ~ In "<" s -> repair s = Ok s.
Proof.
  intros Hs. unfold repair, repair_pieces, Re.split.
  rewrite split_from_plain by assumption.
  assert (E : startswith (str "<") s = false).
  { destruct s as [|c r]; [reflexivity|].
    cbn [str list_ascii_of_string startswith].
    destruct (Ascii.eqb "<" c) eqn:Ec; [|reflexivity].
    apply Ascii.eqb_eq in Ec. subst c. elim Hs. now left. }
  cbn [write_tokens]. rewrite E. cbn [andb bind app].
  unfold render. cbn [map piece_text concat]. now rewrite app_nil_r.
Qed.

Lemma repair_plain_text_witness : repair (str "no markup here") = Ok (str "no markup here").
Proof.
  apply (repair_plain_text (str "no markup here")).
  intros H. repeat (destruct H as [H|H]; [discriminate H|]). exact H.
Defined.

(** ** When the preprocessor raises *)

(** One turn of the loop, with [is_open_tag] as a function of the token. *)
Lemma write_tokens_eq closing_tags last token rest :
  write_tokens closing_tags last (token :: rest) =
  let is_tag := startswith (str "<") token && negb (startswith (str "<!") token) in
  let flushed := if is_tag
                 then match last with Some name => [Synth (close_of name)] | None => [] end
                 else [] in
  let last1 := if is_tag then None else last in
  (last2 <- (if is_open_tag token then
               tag_name <- Re.findall_lts_gt_0 token ;;
               Ok (if negb (mem (upper tag_name) closing_tags)
                   then Some tag_name else last1)
             else Ok last1) ;;
   more <- write_tokens closing_tags last2 rest ;;
   Ok (flushed ++ Orig token :: more)).
Proof.
  cbn [write_tokens]. unfold is_open_tag.
  destruct (startswith (str "<") token && negb (startswith (str "<!") token));
    destruct last; reflexivity.
Qed.

Lemma match_lts_gt_has_gt (s m : text) : Re.match_lts_gt s = Some m -> In ">" s.
Proof.
  revert m; induction s as [|c s IH]; intros m; [discriminate|].
  destruct (ascii_dec c ">") as [->|Hgt]; [now left|].
  destruct (ascii_dec c "<") as [->|Hlt].
  - cbn [Re.match_lts_gt]. destruct (Re.match_lts_gt s) as [m'|]; [|discriminate].
    intros _. right. now apply IH with m'.
  - destruct c as [[] [] [] [] [] [] [] []]; try discriminate;
      [now elim Hgt | now elim Hlt].
Qed.

Lemma findall_lts_gt_0_raises (s : text) :
  ~ In ">" s -> Re.findall_lts_gt_0 s = Raise IndexError.
Proof.
  induction s as [|c s IH]; intros Hs; [reflexivity|].
  cbn [Re.findall_lts_gt_0].
  destruct (Re.match_lts_gt (c :: s)) as [m|] eqn:E.
  - apply match_lts_gt_has_gt in E. contradiction.
  - apply IH. intros Hin. apply Hs. now right.
Qed.

Lemma findall_lts_gt_0_cases (s : text) :
  (exists m, Re.findall_lts_gt_0 s = Ok m) \/ Re.findall_lts_gt_0 s = Raise IndexError.
Proof.
  destruct (in_dec ascii_dec ">" s) as [Hin|Hout].
  - left. now apply findall_lts_gt_0_returns.
  - right. now apply findall_lts_gt_0_raises.
Qed.

Lemma unreadable_dec (token : text) : {unreadable token} + {~ unreadable token}.
Proof.
  unfold unreadable. destruct (is_open_tag token).
  - destruct (in_dec ascii_dec ">" token); [right | left]; tauto.
  - right. intros [H _]. discriminate.
Qed.

Lemma write_tokens_unreadable closing_tags tokens :
  Exists unreadable tokens ->
  forall last, write_tokens closing_tags last tokens = Raise IndexError.
Proof.
  induction 1 as [token rest [Ho Hgt] | token rest _ IH]; intros last;
    rewrite write_tokens_eq; cbv zeta.
  - rewrite Ho, (findall_lts_gt_0_raises _ Hgt). reflexivity.
  - destruct (is_open_tag token).
    + destruct (findall_lts_gt_0_cases token) as [[m ->] | ->]; [|reflexivity].
      cbn [bind]. now rewrite IH.
    + cbn [bind]. now rewrite IH.
Qed.

Lemma write_tokens_readable closing_tags tokens :
  Forall (fun token => ~ unreadable token) tokens ->
  forall last, exists ps, write_tokens closing_tags last tokens = Ok ps.
Proof.
  induction 1 as [|token rest Htok _ IH]; intros last; [now exists []|].
  rewrite write_tokens_eq; cbv zeta.
  destruct (is_open_tag token) eqn:Ho.
  - destruct (in_dec ascii_dec ">" token) as [Hin|Hout];
      [|elim Htok; now split].
    destruct (findall_lts_gt_0_returns _ Hin) as [m ->]. cbn [bind].
    match goal with
    | |- context [write_tokens closing_tags ?l rest] => destruct (IH l) as [ps ->]
    end. cbn [bind]. eauto.
  - cbn [bind]. destruct (IH (if startswith (str "<") token
                                   && negb (startswith (str "<!") token)
                                then None else last)) as [ps ->].
    cbn [bind]. eauto.
Qed.

(** X3. The preprocessor raises exactly when some token of the stream
    starts with [<] (and not with [</], [<?] or [<!]) and holds no [>];
    the exception is then [IndexError].  On every other stream it returns
    an output. *)
Theorem repair_raises_iff (s : text) :
  (repair s = Raise IndexError <-> Exists unreadable (Re.split s))
  /\ ((exists out, repair s = Ok out) <-> ~ Exists unreadable (Re.split s)).
Proof.
  unfold repair, repair_pieces.
  destruct (Exists_dec unreadable (Re.split s) unreadable_dec) as [He|Hn].
  - rewrite (write_tokens_unreadable _ _ He). cbn [bind]. split; split; intros H.
    + exact He.
    + reflexivity.
    + destruct H as [out H]. discriminate.
    + contradiction.
  - assert (Hall : Forall (fun token => ~ unreadable token) (Re.split s)).
    { apply Forall_forall. intros t Ht Hu. apply Hn. apply Exists_exists. eauto. }
    destruct (write_tokens_readable (closing_tags_of s) _ Hall None) as [ps ->].
    cbn [bind]. split; split; intros H.
    + discriminate.
    + contradiction.
    + exact Hn.
    + eauto.
Qed.

(** ** What the preprocessor synthesizes *)

Lemma angles_of_findall (token m : text) :
  Re.findall_lts_gt_0 token = Ok m -> angles m.
Proof. intros H. apply findall_lts_gt_0_angles in H. exact H. Qed.

Lemma write_tokens_synthesizes_angles closing_tags tokens : forall last ps,
  match last with Some m => angles m | None => True end ->
  write_tokens closing_tags last tokens = Ok ps ->
  Forall synthesized_from_angles ps.
Proof.
  induction tokens as [|token rest IH]; intros last ps Hlast H.
  - inversion H; constructor.
  - rewrite write_tokens_eq in H; cbv zeta in H.
    set (is_tag := startswith (str "<") token && negb (startswith (str "<!") token)) in H.
    destruct (if is_open_tag token then _ else _) as [last2|x] eqn:E2 in H;
      [|discriminate].
    cbn [bind] in H.
    destruct (write_tokens closing_tags last2 rest) as [more|x] eqn:Em; [|discriminate].
    cbn [bind] in H. inversion H; subst ps; clear H.
    assert (H1 : match (if is_tag then None else last) with
                 | Some m => angles m | None => True end).
    { destruct is_tag; [exact I | exact Hlast]. }
    assert (H2 : match last2 with Some m => angles m | None => True end).
    { destruct (is_open_tag token).
      - destruct (Re.findall_lts_gt_0 token) as [m|x] eqn:Ef; [|discriminate].
        cbn [bind] in E2. apply angles_of_findall in Ef.
        destruct (negb (mem (upper m) closing_tags)); inversion E2; subst; assumption.
      - inversion E2; subst. assumption. }
    apply Forall_app. split.
    + destruct is_tag; [|constructor]. destruct last as [m|]; [|constructor].
      repeat constructor. exists m. now split.
    + constructor; [exact I|]. now apply IH with last2.
Qed.

(** X4. Every close tag the preprocessor synthesizes is [</] followed by
    a run of angle brackets and [>]: it never carries the name of a tag
    of the stream. *)
Theorem repair_synthesizes_angles (s : text) (ps : list piece) :
  repair_pieces s = Ok ps -> Forall synthesized_from_angles ps.
Proof.
  intros H. now apply write_tokens_synthesizes_angles in H.
Qed.

Lemma repair_synthesizes_angles_witness :
  Forall synthesized_from_angles
    [Orig []; Orig (str "<a>"); Orig (str "x"); Synth (str "</>>");
     Orig (str "<b>"); Orig []].
Proof.
  apply (repair_synthesizes_angles (str "<a>x<b>")). reflexivity.
Defined.

Lemma open_tag_always_pending_witness :
  write_tokens (closing_tags_of (str "x</a>")) None [str "<a>"; str "x"; str "</a>"] =
  (more <- write_tokens (closing_tags_of (str "x</a>")) (Some [">"])
             [str "x"; str "</a>"] ;;
   Ok ([] ++ Orig (str "<a>") :: more)).
Proof.
  apply (open_tag_always_pending (str "x</a>") (str "a") None [str "x"; str "</a>"]).
  split; [discriminate | repeat constructor].
Defined.

Lemma write_tokens_last closing_tags tokens : forall last ps,
  write_tokens closing_tags last tokens = Ok ps -> tokens <> [] ->
  exists ps', ps = ps' ++ [Orig (List.last tokens [])].
Proof.
  induction tokens as [|token rest IH]; intros last ps H Hne; [congruence|].
  apply write_tokens_cons in H as (flushed & last2 & more & -> & Hm & _).
  destruct rest as [|token' rest'].
  - inversion Hm; subst. now exists flushed.
  - destruct (IH _ _ Hm ltac:(discriminate)) as [ps' ->].
    exists (flushed ++ Orig token :: ps').
    rewrite <- app_assoc. reflexivity.
Qed.

(** X5. The last write of the preprocessor is the last token of the
    stream: no close tag is synthesized at the end, so a tag still pending
    there stays unclosed. *)
Theorem repair_ends_with_last_token (s : text) (ps : list piece) :
  repair_pieces s = Ok ps ->
  exists ps', ps = ps' ++ [Orig (List.last (Re.split s) [])].
Proof.
  intros H. apply write_tokens_last in H; [exact H|].
  destruct (split_alternating s) as [Ha _]. inversion Ha; discriminate.
Qed.

Lemma repair_ends_with_last_token_witness :
  exists ps',
    [Orig []; Orig (str "<a>"); Orig (str "x")]
    = ps' ++ [Orig (List.last (Re.split (str "<a>x")) [])].
Proof.
  apply (repair_ends_with_last_token (str "<a>x")). reflexivity.
Defined.

(** ** The context resolver under every selector *)

Section Resolver.

Local Open Scope Z_scope.

(** X6. Under ["instant"] the loop of [get_GAAP] stops at the first entry
    that is either a duration context or an instant context on
    [end_date]: the former raises [TypeError], the latter is the answer;
    with no such entry the request fails with the no-match error. *)
Theorem resolve_instant (catalog : dict ctx_dates) (end_date : Z) :
  resolve catalog Sel_instant end_date =
  match first_instant_or_duration end_date catalog with
  | Some (cid, Instant _) => Ok cid
  | Some (_, Duration _ _) => Raise TypeError
  | None => Raise no_match
  end.
Proof.
  unfold resolve, choose_ctx_id, first_instant_or_duration. cbn [normalize bind].
  induction catalog as [|[cid [d|s e]] rest IH]; [reflexivity| |reflexivity].
  cbn [find_ctx_id find snd is_instant len andb equals].
  change (1 =? 1) with true. cbn [andb].
  destruct (d =? end_date); [reflexivity|].
  change (1 =? 2) with false. cbv iota. exact IH.
Qed.

Lemma find_some_in {A : Type} (f : A -> bool) (l : list A) (x : A) :
  find f l = Some x -> In x l /\ f x = true.
Proof. apply find_some. Qed.

(** X7. Whatever the selector, a context id returned by the resolver is a
    key of the catalog, and its entry satisfies the request: an instant on
    [end_date], or a duration that ends on [end_date] with a span between
    the requested number of days and a week more. *)
Theorem resolve_sound (catalog : dict ctx_dates) (context : selector)
    (end_date : Z) (cid : text) :
  resolve catalog context end_date = Ok cid ->
  exists dates,
    In (cid, dates) catalog
    /\ ((context = Sel_instant /\ dates = Instant end_date)
        \/ (exists days start_date,
              normalize context = Ok (P_delta days)
              /\ dates = Duration start_date end_date
              /\ days <= end_date - start_date <= days + 7)).
Proof.
  intros H.
  destruct (normalize context) as [[|days]|x] eqn:En.
  - assert (context = Sel_instant).
    { destruct context as [| | |d|n|]; cbn [normalize] in En;
        try discriminate En; [reflexivity|].
      destruct (timedelta n); discriminate En. }
    subst context. rewrite resolve_instant in H.
    unfold first_instant_or_duration in H.
    destruct (find _ catalog) as [[cid' [d|s e]]|] eqn:Ef; try discriminate.
    inversion H; subst cid'. apply find_some_in in Ef as [Hin Hd].
    cbn [snd] in Hd. apply Z.eqb_eq in Hd. subst d.
    exists (Instant end_date). split; [assumption | now left].
  - rewrite (resolve_delta days) in H by assumption.
    destruct (representable (end_date - days)); [|discriminate].
    unfold first_match in H.
    destruct (find _ catalog) as [[cid' dates]|] eqn:Ef; [|discriminate].
    inversion H; subst cid'. apply find_some_in in Ef as [Hin Hq].
    cbn [snd] in Hq. destruct dates as [d|s e]; [discriminate|].
    cbn [qualifies] in Hq.
    apply andb_prop in Hq as [Hq H3]. apply andb_prop in Hq as [H1 H2].
    apply Z.eqb_eq in H1. apply Z.leb_le in H2, H3. subst e.
    exists (Duration s end_date). split; [assumption|].
    right. exists days, s. repeat split; assumption.
  - unfold resolve, choose_ctx_id in H. rewrite En in H. discriminate.
Qed.

Lemma resolve_sound_witness :
  exists dates,
    In (str "C1", dates) [(str "C1", Duration (ymd 2020 1 1) (ymd 2020 3 31))]
    /\ ((Quarter = Sel_instant /\ dates = Instant (ymd 2020 3 31))
        \/ (exists days start_date,
              normalize Quarter = Ok (P_delta days)
              /\ dates = Duration start_date (ymd 2020 3 31)
              /\ days <= ymd 2020 3 31 - start_date <= days + 7)).
Proof.
  apply (resolve_sound [(str "C1", Duration (ymd 2020 1 1) (ymd 2020 3 31))]
           Quarter (ymd 2020 3 31) (str "C1")).
  reflexivity.
Defined.

(** The span of the first calendar quarter. *)
Lemma first_quarter_span (y : Z) :
  ymd y 3 31 - ymd y 1 1 = if is_leap y then 90 else 89.
Proof.
  unfold ymd. destruct (is_leap y).
  - change (days_before_month true 3) with 60.
    change (days_before_month true 1) with 0. lia.
  - change (days_before_month false 3) with 59.
    change (days_before_month false 1) with 0. lia.
Qed.

Lemma first_quarter_start (y : Z) :
  1 <= y <= 9999 -> representable (ymd y 3 31 - 90) = negb (y =? 1).
Proof.
  intros Hy. unfold representable, min_ordinal, max_ordinal, ymd.
  destruct (y =? 1) eqn:E1.
  - apply Z.eqb_eq in E1. subst y. reflexivity.
  - apply Z.eqb_neq in E1. cbn [negb].
    apply andb_true_intro. split; apply Z.leb_le.
    + destruct (is_leap y).
      * change (days_before_month true 3) with 60.
        Z.div_mod_to_equations. lia.
      * change (days_before_month false 3) with 59.
        Z.div_mod_to_equations. lia.
    + destruct (is_leap y).
      * change (days_before_month true 3) with 60.
        Z.div_mod_to_equations. lia.
      * change (days_before_month false 3) with 59.
        Z.div_mod_to_equations. lia.
Qed.

(** X8. A context that runs from January 1 to March 31 spans 89 days in a
    common year: for a year from 2 to 9999 the ["quarter"] selector, which
    asks for 90 to 97 days, finds it in leap years only.  In year 1 the
    start date of the request would precede the first day of [datetime]
    and line 77 raises [OverflowError]. *)
Theorem resolve_first_quarter (y : Z) (cid : text) :
  1 <= y <= 9999 ->
  resolve [(cid, Duration (ymd y 1 1) (ymd y 3 31))] Quarter (ymd y 3 31)
  = if y =? 1 then Raise OverflowError
    else if is_leap y then Ok cid else Raise no_match.
Proof.
  intros Hy. rewrite (resolve_delta 90) by reflexivity.
  rewrite (first_quarter_start y Hy).
  destruct (y =? 1); [reflexivity|]. cbn [negb].
  unfold first_match. cbn [find snd qualifies].
  rewrite first_quarter_span, Z.eqb_refl.
  destruct (is_leap y); reflexivity.
Qed.

Lemma resolve_first_quarter_witness :
  resolve [(str "Q1", Duration (ymd 2021 1 1) (ymd 2021 3 31))] Quarter (ymd 2021 3 31)
  = if 2021 =? 1 then Raise OverflowError
    else if is_leap 2021 then Ok (str "Q1") else Raise no_match.
Proof.
  apply (resolve_first_quarter 2021 (str "Q1")). lia.
Defined.

End Resolver.

(** ** Dictionaries *)

Lemma text_eqb_eq (a b : text) : text_eqb a b = true <-> a = b.
Proof. unfold text_eqb. destruct (list_eq_dec ascii_dec a b); split; congruence. Qed.

Lemma text_eqb_refl (a : text) : text_eqb a a = true.
Proof. now apply text_eqb_eq. Qed.

Lemma text_eqb_neq (a b : text) : text_eqb a b = false <-> a <> b.
Proof. unfold text_eqb. destruct (list_eq_dec ascii_dec a b); split; congruence. Qed.

(** X10. Assignment then lookup: [d[k] = v] makes [d[k]] equal to [v] and
    leaves the value of every other key as it was. *)
Theorem dict_get_set {V : Type} (k k' : text) (v : V) (d : dict V) :
  dict_get k' (dict_set k v d) = if text_eqb k' k then Some v else dict_get k' d.
Proof.
  induction d as [|[k0 v0] r IH]; cbn [dict_set dict_get].
  - reflexivity.
  - destruct (text_eqb k k0) eqn:E0; cbn [dict_get].
    + apply text_eqb_eq in E0. subst k0. now destruct (text_eqb k' k).
    + destruct (text_eqb k' k0) eqn:E1; [|exact IH].
      apply text_eqb_eq in E1. subst k0.
      destruct (text_eqb k' k) eqn:E2; [|reflexivity].
      apply text_eqb_eq in E2. subst k'. rewrite text_eqb_refl in E0. discriminate.
Qed.

Lemma dict_set_keys {V : Type} (k : text) (v : V) (d : dict V) :
  map fst (dict_set k v d) =
  if mem k (map fst d) then map fst d else map fst d ++ [k].
Proof.
  unfold mem. induction d as [|[k0 v0] r IH]; cbn [dict_set map fst existsb app].
  - reflexivity.
  - destruct (text_eqb k k0) eqn:E0; cbn [orb map fst].
    + apply text_eqb_eq in E0. now subst k0.
    + rewrite IH. now destruct (existsb (text_eqb k) (map fst r)).
Qed.

Lemma mem_in (k : text) (ks : list text) : mem k ks = true <-> In k ks.
Proof.
  unfold mem. rewrite existsb_exists. split.
  - intros (x & Hin & Hx). apply text_eqb_eq in Hx. now subst x.
  - intros Hin. exists k. split; [assumption | apply text_eqb_refl].
Qed.

(** X11. Assignment keeps the keys of a dictionary distinct and in
    insertion order: a key that is present keeps its place, a new key goes
    to the end. *)
Theorem dict_set_nodup {V : Type} (k : text) (v : V) (d : dict V) :
  NoDup (map fst d) ->
  NoDup (map fst (dict_set k v d))
  /\ (In k (map fst d) -> map fst (dict_set k v d) = map fst d)
  /\ (~ In k (map fst d) -> map fst (dict_set k v d) = map fst d ++ [k]).
Proof.
  intros Hd. rewrite dict_set_keys.
  destruct (mem k (map fst d)) eqn:Em.
  - apply mem_in in Em. repeat split; auto. intros Hn. contradiction.
  - assert (Hn : ~ In k (map fst d)).
    { intros Hin. apply mem_in in Hin. congruence. }
    repeat split; auto.
    + apply NoDup_app; [assumption | repeat constructor; intros [] |].
      intros x Hx [<-|[]]. contradiction.
    + intros Hin. contradiction.
Qed.

Lemma dict_set_nodup_witness :
  NoDup (map fst (dict_set (str "c2") (Int 5) [(str "c1", Int 1); (str "c2", Int 2)]))
  /\ (In (str "c2") (map fst [(str "c1", Int 1); (str "c2", Int 2)]) ->
      map fst (dict_set (str "c2") (Int 5) [(str "c1", Int 1); (str "c2", Int 2)])
      = map fst [(str "c1", Int 1); (str "c2", Int 2)])
  /\ (~ In (str "c2") (map fst [(str "c1", Int 1); (str "c2", Int 2)]) ->
      map fst (dict_set (str "c2") (Int 5) [(str "c1", Int 1); (str "c2", Int 2)])
      = map fst [(str "c1", Int 1); (str "c2", Int 2)] ++ [str "c2"]).
Proof.
  apply (dict_set_nodup (str "c2") (Int 5) [(str "c1", Int 1); (str "c2", Int 2)]).
  repeat constructor; cbn; intuition discriminate.
Defined.

Lemma dict_set_in {V : Type} (k k' : text) (v v' : V) (d : dict V) :
  In (k', v') (dict_set k v d) -> (k', v') = (k, v) \/ In (k', v') d.
Proof.
  induction d as [|[k0 v0] r IH]; cbn [dict_set].
  - intros [H|[]]. now left.
  - destruct (text_eqb k k0).
    + intros [H|H]; [now left | right; now right].
    + intros [H|H]; [right; now left|]. destruct (IH H); [now left | right; now right].
Qed.

(** ** The extraction loop under every policy *)

Section Policies.

Context {B : Builtins}.

Local Open Scope Z_scope.

(** X12. The loop over a batch made of two parts is the loop over the
    first part followed by the loop over the second, started from the
    mapping the first one built; an exception of the first part ends the
    batch. *)
Theorem process_app ignore_errors log (l1 l2 : list element) : forall data,
  process ignore_errors log (l1 ++ l2) data =
  (data1 <- process ignore_errors log l1 data ;; process ignore_errors log l2 data1).
Proof.
  induction l1 as [|e l1 IH]; intros data; cbn [app process bind]; [reflexivity|].
  destruct (try_body e) as [[[ctx val]|]|x]; auto.
  destruct (ignore_errors =? 0); [reflexivity|].
  destruct (ignore_errors =? 2); [destruct log|]; auto.
Qed.

Lemma fails_dec (e : element) : {fails e} + {~ fails e}.
Proof.
  unfold fails. destruct (try_body e) as [r|x].
  - right. intros [y H]. discriminate.
  - left. now exists x.
Qed.

Lemma process_keeps_lookup ignore_errors log (ctx : text) (l : list element) :
  Forall (fun e => forall v, ~ contributes e ctx v) l ->
  forall data data',
    process ignore_errors log l data = Ok data' ->
    dict_get ctx data' = dict_get ctx data.
Proof.
  induction 1 as [|e l He _ IH]; intros data data' H; cbn [process] in H.
  - now inversion H.
  - destruct (try_body e) as [[[ctx' val]|]|x] eqn:Et.
    + apply IH in H. rewrite H, dict_get_set.
      destruct (text_eqb ctx ctx') eqn:E; [|reflexivity].
      apply text_eqb_eq in E. subst ctx'. elim (He val). exact Et.
    + now apply IH in H.
    + destruct (ignore_errors =? 0); [discriminate|].
      destruct (ignore_errors =? 2); [destruct log; [|discriminate]|]; now apply IH in H.
Qed.

(** X13. A later node with the same context id overwrites an earlier one:
    the mapping holds, for a context id, the value of the last node of the
    batch that contributes to it. *)
Theorem last_node_wins (before after : list element) (e : element)
    (ctx : text) (v : number) ignore_errors log (data : dict number) :
  data_processing (before ++ e :: after) ignore_errors log default_options
  = Ok (Mapping data) ->
  contributes e ctx v ->
  Forall (fun e' => forall v', ~ contributes e' ctx v') after ->
  dict_get ctx data = Some v.
Proof.
  rewrite data_processing_default, process_app. intros H He Hafter.
  destruct (process ignore_errors log before []) as [d1|x]; [|discriminate].
  cbn [bind process] in H. unfold contributes in He. rewrite He in H.
  destruct (process ignore_errors log after (dict_set ctx v d1)) as [d2|x] eqn:E2;
    [|discriminate].
  inversion H; subst d2.
  rewrite (process_keeps_lookup _ _ _ _ Hafter _ _ E2), dict_get_set.
  now rewrite text_eqb_refl.
Qed.

Lemma process_entries ignore_errors log (l : list element) : forall data data',
  process ignore_errors log l data = Ok data' ->
  NoDup (map fst data) ->
  NoDup (map fst data')
  /\ forall ctx v, In (ctx, v) data' ->
       In (ctx, v) data \/ exists e, In e l /\ contributes e ctx v.
Proof.
  induction l as [|e l IH]; intros data data' H Hd; cbn [process] in H.
  - inversion H; subst. split; [assumption | now left].
  - destruct (try_body e) as [[[ctx' val]|]|x] eqn:Et.
    + apply IH in H as [Hn Hin]; [|now apply dict_set_nodup].
      split; [assumption|]. intros ctx v Hcv.
      destruct (Hin ctx v Hcv) as [H1|(e' & He' & Hc)].
      * apply dict_set_in in H1 as [H1|H1]; [|now left].
        inversion H1; subst. right. exists e. split; [now left | exact Et].
      * right. exists e'. split; [now right | assumption].
    + apply IH in H as [Hn Hin]; [|assumption].
      split; [assumption|]. intros ctx v Hcv.
      destruct (Hin ctx v Hcv) as [H1|(e' & He' & Hc)]; [now left|].
      right. exists e'. split; [now right | assumption].
    + assert (H' : process ignore_errors log l data = Ok data').
      { destruct (ignore_errors =? 0); [discriminate|].
        destruct (ignore_errors =? 2); [destruct log; [|discriminate]|]; exact H. }
      apply IH in H' as [Hn Hin]; [|assumption].
      split; [assumption|]. intros ctx v Hcv.
      destruct (Hin ctx v Hcv) as [H1|(e' & He' & Hc)]; [now left|].
      right. exists e'. split; [now right | assumption].
Qed.

(** X14. The mapping returned on the contextful path has distinct context
    ids, and each of its entries is the contribution of a node of the
    batch: the [contextref] of that node with the number read from its
    text. *)
Theorem mapping_entries (elements : list element) ignore_errors log
    (data : dict number) :
  data_processing elements ignore_errors log default_options = Ok (Mapping data) ->
  NoDup (map fst data)
  /\ forall ctx v, In (ctx, v) data -> exists e, In e elements /\ contributes e ctx v.
Proof.
  rewrite data_processing_default. intros H.
  destruct (process ignore_errors log elements []) as [d|x] eqn:E; [|discriminate].
  inversion H; subst d. apply process_entries in E as [Hn Hin]; [|constructor].
  split; [assumption|]. intros ctx v Hcv. now destruct (Hin ctx v Hcv) as [[]|He].
Qed.

Lemma process_absorbing ignore_errors log (l : list element) :
  absorbs ignore_errors log ->
  forall data, process ignore_errors log l data = process 1 None l data.
Proof.
  intros [H0 H2]. induction l as [|e l IH]; intros data; cbn [process]; [reflexivity|].
  destruct (try_body e) as [[[ctx val]|]|x]; auto.
  apply Z.eqb_neq in H0. rewrite H0. change (1 =? 0) with false. change (1 =? 2) with false.
  destruct (ignore_errors =? 2) eqn:E2; [|auto].
  apply Z.eqb_eq in E2. destruct log; [auto | now elim (H2 E2)].
Qed.

(** X15. The logging policy with a logger, and every value of
    [ignore_errors] other than 0 and 2, return the same result on the same
    batch, whatever the options. *)
Theorem absorbing_policies_agree (elements : list element) (opts : options)
    ignore_errors log ignore_errors' log' :
  absorbs ignore_errors log -> absorbs ignore_errors' log' ->
  data_processing elements ignore_errors log opts
  = data_processing elements ignore_errors' log' opts.
Proof.
  intros Ha Ha'. unfold data_processing.
  rewrite (process_absorbing _ _ _ Ha), (process_absorbing _ _ _ Ha'). reflexivity.
Qed.

Lemma process_without_failure ignore_errors log (l : list element) :
  Forall (fun e => ~ fails e) l ->
  forall data, process ignore_errors log l data = process 0 None l data.
Proof.
  induction 1 as [|e l He _ IH]; intros data; cbn [process]; [reflexivity|].
  destruct (try_body e) as [[[ctx val]|]|x] eqn:Et; auto.
  elim He. now exists x.
Qed.

Lemma process_strict_returns (l : list element) log : forall data,
  Forall (fun e => ~ fails e) l -> exists data', process 0 log l data = Ok data'.
Proof.
  intros data H. revert data.
  induction H as [|e l He _ IH]; intros data; cbn [process]; [eauto|].
  destruct (try_body e) as [[[ctx val]|]|x] eqn:Et; auto.
  elim He. now exists x.
Qed.

(** X16. Under the strict policy the contextful path returns a mapping
    exactly when no node of the batch fails; and a batch without failing
    node gives the same result under every policy. *)
Theorem strict_returns_iff (elements : list element) log :
  ((exists data, data_processing elements 0 log default_options = Ok (Mapping data))
   <-> Forall (fun e => ~ fails e) elements)
  /\ (Forall (fun e => ~ fails e) elements ->
      forall ignore_errors log' opts,
        data_processing elements ignore_errors log' opts
        = data_processing elements 0 log opts).
Proof.
  split; [split|].
  - intros [data H]. rewrite data_processing_default in H.
    apply Forall_forall. intros e Hin [x Hx].
    apply in_split in Hin as (l1 & l2 & ->).
    rewrite (process_strict_raises _ _ _ _ x) in H by assumption. discriminate.
  - intros H. rewrite data_processing_default.
    destruct (process_strict_returns elements log [] H) as [d ->]. now exists d.
  - intros H ie log' opts. unfold data_processing.
    rewrite (process_without_failure ie log' _ H),
            (process_without_failure 0 log _ H). reflexivity.
Qed.

(** X17. Called with [ignore_errors = 2] and no logger, the loop raises
    [AttributeError] as soon as a node fails: the handler calls
    [logger.error] on [None]. *)
Theorem logging_without_logger (elements : list element) :
  Exists fails elements ->
  data_processing elements 2 None default_options = Raise AttributeError.
Proof.
  rewrite data_processing_default. generalize (@nil (text * number)).
  induction elements as [|e l IH]; intros data H; [inversion H|].
  cbn [process]. destruct (try_body e) as [[[ctx val]|]|x] eqn:Et.
  - inversion H as [? ? [y Hy]|]; subst; [congruence | now apply IH].
  - inversion H as [? ? [y Hy]|]; subst; [congruence | now apply IH].
  - reflexivity.
Qed.

End Policies.

Lemma last_node_wins_witness :
  dict_get (str "c1") [(str "c1", Float (str "9"))] = Some (Float (str "9")).
Proof.
  apply (@last_node_wins Literals.builtins
           [node [attr "contextref" "c1"; attr "decimals" "0"] "5"]
           [node [attr "contextref" "c1"] "n/a"]
           (node [attr "contextref" "c1"; attr "decimals" "2"] "9")
           (str "c1") (Float (str "9")) 0%Z None).
  - reflexivity.
  - reflexivity.
  - repeat constructor. intros v' H. discriminate H.
Defined.

Lemma mapping_entries_witness :
  NoDup (map fst [(str "c1", Int 5); (str "c2", Float (str "9"))])
  /\ forall ctx v, In (ctx, v) [(str "c1", Int 5); (str "c2", Float (str "9"))] ->
       exists e,
         In e [node [attr "contextref" "c1"; attr "decimals" "0"] "5";
               node [attr "contextref" "c2"; attr "decimals" "2"] "9"]
         /\ @contributes Literals.builtins e ctx v.
Proof.
  apply (@mapping_entries Literals.builtins
           [node [attr "contextref" "c1"; attr "decimals" "0"] "5";
            node [attr "contextref" "c2"; attr "decimals" "2"] "9"] 0%Z None).
  reflexivity.
Defined.

Lemma absorbing_policies_agree_witness :
  @data_processing Literals.builtins [node [] "5"] 2 (Some Logger) default_options
  = @data_processing Literals.builtins [node [] "5"] 1 None default_options.
Proof.
  apply (@absorbing_policies_agree Literals.builtins [node [] "5"] default_options
           2%Z (Some Logger) 1%Z None).
  - split; [discriminate | intros _; discriminate].
  - split; discriminate.
Defined.

Lemma logging_without_logger_witness :
  @data_processing Literals.builtins
    [node [attr "contextref" "c1"; attr "decimals" "0"] "5"; node [] "7"]
    2 None default_options
  = Raise AttributeError.
Proof.
  apply (@logging_without_logger Literals.builtins).
  right. left. exists KeyError. reflexivity.
Defined.

(** ** parse_GAAP, parse_DEI and parse_custom *)

Section Parsers.

Context {B : Builtins}.

Local Open Scope Z_scope.

Lemma data_processing_default_mapping elements ignore_errors log v :
  data_processing elements ignore_errors log default_options = Ok v -> is_mapping v.
Proof.
  rewrite data_processing_default.
  destruct (process ignore_errors log elements []) as [d|x]; [|discriminate].
  intros H; inversion H. now exists d.
Qed.

Lemma dict_set_forall {V : Type} (P : V -> Prop) (k : text) (v : V) (d : dict V) :
  P v -> Forall (fun kv => P (snd kv)) d -> Forall (fun kv => P (snd kv)) (dict_set k v d).
Proof.
  intros Hv. induction 1 as [|[k0 v0] r H0 Hr IH]; cbn [dict_set].
  - repeat constructor. exact Hv.
  - destruct (text_eqb k k0).
    + constructor; [exact Hv | exact Hr].
    + constructor; [exact H0 | exact IH].
Qed.

Lemma process_later_mappings ignore_errors log batches : forall gaap_data result,
  process_later ignore_errors log batches gaap_data = Ok result ->
  Forall (fun kv => is_mapping (snd kv)) gaap_data ->
  Forall (fun kv => is_mapping (snd kv)) result.
Proof.
  induction batches as [|[key elements] rest IH]; intros gaap_data result H Hg;
    cbn [process_later] in H.
  - inversion H; subst. exact Hg.
  - destruct (data_processing elements ignore_errors log default_options) as [v|x] eqn:E;
      [|discriminate].
    cbn [bind] in H. apply IH in H; [assumption|].
    apply dict_set_forall; [|assumption].
    now apply data_processing_default_mapping in E.
Qed.

(** X18. When [parse_GAAP] returns, every value of [gaap_data] is a
    mapping from context id to number, never the text of a node: the
    lookups [k_data.get(ctx_id)] of [get_GAAP], [get_quarterlies] and
    [get_yearlies] are then always defined. *)
Theorem parse_GAAP_mappings (xbrl : gaap_tags) ignore_errors log
    (gaap_data : dict extracted) :
  parse_GAAP xbrl ignore_errors log = Ok gaap_data ->
  Forall (fun kv => is_mapping (snd kv)) gaap_data.
Proof.
  unfold parse_GAAP.
  destruct (data_processing (assets xbrl) _ _ _) as [a|x] eqn:Ea; [|discriminate].
  destruct (data_processing (current_assets xbrl) _ _ _) as [c|x] eqn:Ec; [|discriminate].
  cbn [bind].
  destruct (non_current_assets xbrl) as [|e l] eqn:En; [discriminate|].
  destruct (data_processing (e :: l) _ _ _) as [n|x] eqn:Enc; [|discriminate].
  cbn [bind]. intros H. apply process_later_mappings in H; [assumption|].
  apply data_processing_default_mapping in Ea, Ec, Enc.
  repeat (apply dict_set_forall; [assumption|]). constructor.
Qed.

(** X19. The string fields of [parse_DEI] hold the text of the first node
    found, whatever the policy and the nodes after it; when the search
    finds no node they hold an empty mapping, not a string. *)
Theorem parse_DEI_string_fields (xbrl : dei_tags) ignore_errors log (dei : DEI) :
  parse_DEI xbrl ignore_errors log = Ok dei ->
  trading_symbol dei = match trading_symbol_tags xbrl with
                       | e :: _ => Text (elem_text e)
                       | [] => Mapping []
                       end
  /\ company_name dei = match company_name_tags xbrl with
                        | e :: _ => Text (elem_text e)
                        | [] => Mapping []
                        end.
Proof.
  unfold parse_DEI.
  assert (Hs : forall l, data_processing l ignore_errors log contextless_string
                         = Ok match l with
                              | e :: _ => Text (elem_text e)
                              | [] => Mapping []
                              end).
  { intros [|e l]; reflexivity. }
  rewrite !Hs. cbn [bind].
  destruct (data_processing (shares_outstanding_tags xbrl) _ _ _) as [s|x]; [|discriminate].
  destruct (data_processing (public_float_tags xbrl) _ _ _) as [p|x]; [|discriminate].
  cbn [bind]. intros H; inversion H; subst dei. now split.
Qed.

(** X20. Under a policy that absorbs failures [parse_DEI] always returns;
    under the strict policy it can raise only the extraction error, and
    only from the two numeric fields. *)
Theorem parse_DEI_returns (xbrl : dei_tags) ignore_errors log :
  (absorbs ignore_errors log -> exists dei, parse_DEI xbrl ignore_errors log = Ok dei)
  /\ (forall x, parse_DEI xbrl 0 log = Raise x ->
        x = strict_error
        /\ (data_processing (shares_outstanding_tags xbrl) 0 log contextless_number
            = Raise strict_error
            \/ data_processing (public_float_tags xbrl) 0 log contextless_number
               = Raise strict_error)).
Proof.
  assert (Hs : forall l ie, data_processing l ie log contextless_string
                         = Ok match l with
                              | e :: _ => Text (elem_text e)
                              | [] => Mapping []
                              end).
  { intros [|e l] ie; reflexivity. }
  assert (Hn : forall l ie, absorbs ie log ->
             exists v, data_processing l ie log contextless_number = Ok v).
  { intros l ie Ha. unfold data_processing.
    cbn [type no_context contextless_number].
    destruct (process_returns l ie log [] Ha) as [d Hd]. rewrite Hd. cbn [bind].
    destruct l as [|e l]; [eauto|]. destruct (is_number (elem_text e)); eauto. }
  assert (Hr : forall l x, data_processing l 0 log contextless_number = Raise x ->
             x = strict_error).
  { intros l x. unfold data_processing. cbn [type no_context contextless_number].
    destruct (process 0 log l []) as [d|y] eqn:E.
    - destruct l as [|e l]; [discriminate|].
      destruct (is_number (elem_text e)); discriminate.
    - apply process_strict_cases in E. subst y. cbn [bind].
      destruct l as [|e l]; [now intros [= <-]|].
      destruct (is_number (elem_text e)); [discriminate | now intros [= <-]]. }
  unfold parse_DEI. split.
  - intros Ha. rewrite !Hs. cbn [bind].
    destruct (Hn (shares_outstanding_tags xbrl) _ Ha) as [s ->].
    destruct (Hn (public_float_tags xbrl) _ Ha) as [p ->]. cbn [bind]. eauto.
  - intros x. rewrite !Hs. cbn [bind].
    destruct (data_processing (shares_outstanding_tags xbrl) 0 log contextless_number)
      as [s|y] eqn:Es.
    + destruct (data_processing (public_float_tags xbrl) 0 log contextless_number)
        as [p|y] eqn:Ep; cbn [bind]; [discriminate|].
      intros [= <-]. apply Hr in Ep. subst y. split; [reflexivity | now right].
    + cbn [bind]. intros [= <-]. apply Hr in Es. subst y. split; [reflexivity | now left].
Qed.

(** The part of a qualified name after its prefix. *)
Lemma split_on_no_sep (sep : ascii) (s : text) : ~ In sep s -> split_on sep s = [s].
Proof.
  induction s as [|c r IH]; intros H; cbn [split_on]; [reflexivity|].
  destruct (Ascii.eqb c sep) eqn:E.
  - apply Ascii.eqb_eq in E. subst c. elim H. now left.
  - rewrite IH; [reflexivity|]. intros Hin. apply H. now right.
Qed.

Lemma split_on_prefix (sep : ascii) (p s : text) :
  ~ In sep p -> split_on sep (p ++ sep :: s) = p :: split_on sep s.
Proof.
  induction p as [|c r IH]; intros H; cbn [app split_on].
  - now rewrite Ascii.eqb_refl.
  - destruct (Ascii.eqb c sep) eqn:E.
    + apply Ascii.eqb_eq in E. subst c. elim H. now left.
    + rewrite IH; [reflexivity|]. intros Hin. apply H. now right.
Qed.

Lemma item_1_local (prefix local : text) :
  ~ In ":" prefix -> ~ In ":" local ->
  item_1 (split_on ":" (prefix ++ ":" :: local)) = Ok local.
Proof.
  intros Hp Hl. now rewrite split_on_prefix, split_on_no_sep.
Qed.



Lemma set_custom_app (l1 l2 : list named_tag) : forall obj,
  set_custom (l1 ++ l2) obj = (obj1 <- set_custom l1 obj ;; set_custom l2 obj1).
Proof.
  induction l1 as [|d l1 IH]; intros obj; cbn [app set_custom bind]; [reflexivity|].
  destruct (is_number (tag_text d)); [|apply IH].
  destruct (item_1 (split_on ":" (tag_name d))); cbn [bind]; [apply IH | reflexivity].
Qed.

Lemma set_custom_keeps (k : text) (l : list named_tag) :
  Forall (fun d => is_number (tag_text d) = true ->
                   item_1 (split_on ":" (tag_name d)) <> Ok k) l ->
  forall obj obj', set_custom l obj = Ok obj' -> dict_get k obj' = dict_get k obj.
Proof.
  induction 1 as [|d l Hd _ IH]; intros obj obj' H; cbn [set_custom] in H.
  - now inversion H.
  - destruct (is_number (tag_text d)); [|now apply IH].
    destruct (item_1 (split_on ":" (tag_name d))) as [name|x] eqn:E; [|discriminate].
    cbn [bind] in H. apply IH in H. rewrite H, dict_get_set.
    destruct (text_eqb k name) eqn:Ek; [|reflexivity].
    apply text_eqb_eq in Ek. subst name. now elim Hd.
Qed.

(** X21. [parse_custom] keeps the raw text of a numeric node under the
    part of its name after the prefix, and the last such node wins: after
    a node [prefix:local] with numeric text, followed by nodes that are
    not numeric or have another local name, the attribute [local] holds
    that node's text. *)
Theorem parse_custom_last_wins (before after : list named_tag)
    (prefix local value : text) (custom_obj : dict text) :
  ~ In ":" prefix -> ~ In ":" local ->
  is_number value = true ->
  Forall (fun d => is_number (tag_text d) = true ->
                   item_1 (split_on ":" (tag_name d)) <> Ok local) after ->
  parse_custom (before ++ {| tag_name := prefix ++ ":" :: local; tag_text := value |}
                       :: after) = Ok custom_obj ->
  dict_get local custom_obj = Some value.
Proof.
  intros Hp Hl Hv Hafter. unfold parse_custom. rewrite set_custom_app.
  destruct (set_custom before []) as [obj1|x]; [|discriminate].
  cbn [bind set_custom tag_text tag_name]. rewrite Hv, item_1_local by assumption.
  cbn [bind]. intros H. rewrite (set_custom_keeps _ _ Hafter _ _ H), dict_get_set.
  now rewrite text_eqb_refl.
Qed.


End Parsers.

Lemma parse_GAAP_mappings_witness :
  Forall (fun kv => is_mapping (snd kv))
    [(str "assets", Mapping [(str "c1", Int 100)]);
     (str "current_assets", Mapping []);
     (str "non_current_assets", Mapping [(str "c1", Int 60)])].
Proof.
  apply (@parse_GAAP_mappings Literals.builtins
           {| assets := [node [attr "contextref" "c1"; attr "decimals" "0"] "100"];
              current_assets := [];
              non_current_assets :=
                [node [attr "contextref" "c1"; attr "decimals" "0"] "60"];
              later := [] |} 0%Z None).
  reflexivity.
Defined.

Lemma parse_DEI_string_fields_witness :
  Text (str "ACME") = Text (str "ACME") /\ @Mapping [] = Mapping [].
Proof.
  apply (@parse_DEI_string_fields Literals.builtins
           {| trading_symbol_tags := [node [] "ACME"; node [] "other"];
              company_name_tags := [];
              shares_outstanding_tags := [node [] "1000"];
              public_float_tags := [] |} 0%Z None
           {| trading_symbol := Text (str "ACME"); company_name := Mapping [];
              shares_outstanding := Text (str "1000"); public_float := Mapping [] |}).
  reflexivity.
Defined.

Lemma parse_custom_last_wins_witness :
  dict_get (str "Backlog") [(str "Backlog", str "7")] = Some (str "7").
Proof.
  apply (@parse_custom_last_wins Literals.builtins
           [{| tag_name := str "acme:Backlog"; tag_text := str "5" |}]
           [{| tag_name := str "acme:Note"; tag_text := str "n/a" |}]
           (str "acme") (str "Backlog") (str "7")).
  - intros H. repeat (destruct H as [H|H]; [discriminate H|]). exact H.
  - intros H. repeat (destruct H as [H|H]; [discriminate H|]). exact H.
  - reflexivity.
  - repeat constructor. intros H. discriminate H.
  - reflexivity.
Defined.

(** ** get_quarterlies and get_yearlies *)

Lemma insert_sorted_in (x y : text) (l : list text) :
  In y (insert_sorted x l) <-> y = x \/ In y l.
Proof.
  induction l as [|z l IH]; cbn [insert_sorted].
  - cbn. intuition.
  - destruct (text_leb x z); cbn [In]; [intuition|]. rewrite IH. intuition.
Qed.

(** [sorted] keeps the elements of the list. *)
Lemma sorted_in (y : text) (l : list text) : In y (sorted l) <-> In y l.
Proof.
  induction l as [|x l IH]; [reflexivity|].
  cbn [sorted fold_right]. fold (sorted l). rewrite insert_sorted_in, IH.
  cbn [In]. intuition.
Qed.

Lemma dict_set_same {V : Type} (k : text) (v : V) (d : dict V) :
  dict_get k d = Some v -> dict_set k v d = d.
Proof.
  induction d as [|[k0 v0] r IH]; cbn [dict_get dict_set]; [discriminate|].
  destruct (text_eqb k k0) eqn:E.
  - apply text_eqb_eq in E. subst k0. now intros [= ->].
  - intros H. now rewrite IH.
Qed.

Lemma dict_set_not_nil {V : Type} (k : text) (v : V) (d : dict V) : dict_set k v d <> [].
Proof. destruct d as [|[k0 v0] r]; cbn [dict_set]; [|destruct (text_eqb k k0)]; discriminate. Qed.

Section PeriodFacts.

Variable label : Type.
Variable label_eqb : label -> label -> bool.
Variable label_of : text -> option label.
Variable suffix : text.

Lemma label_all_raises (cids : list text) :
  Exists (fun cid => label_of cid = None) cids ->
  label_all label label_of cids = Raise AttributeError.
Proof.
  induction 1 as [cid rest H | cid rest _ IH]; cbn [label_all].
  - now rewrite H.
  - destruct (label_of cid); [now rewrite IH | reflexivity].
Qed.

Lemma label_all_returns (cids : list text) :
  Forall (fun cid => label_of cid <> None) cids ->
  exists pairs, label_all label label_of cids = Ok pairs /\ map fst pairs = cids.
Proof.
  induction 1 as [|cid rest H _ [pairs [IH1 IH2]]]; cbn [label_all].
  - now exists [].
  - destruct (label_of cid) as [l|]; [|congruence].
    rewrite IH1. cbn [bind]. exists ((cid, l) :: pairs). cbn. now rewrite IH2.
Qed.

Lemma ordered_dict_not_nil (pairs : list (text * label)) :
  pairs <> [] -> ordered_dict label pairs <> [].
Proof.
  unfold ordered_dict. destruct pairs as [|p pairs]; [congruence|]. intros _.
  cbn [fold_left].
  assert (H : forall (ps : list (text * label)) d, d <> [] ->
              fold_left (fun d kv => dict_set (fst kv) (snd kv) d) ps d <> []).
  { induction ps as [|q ps IH]; intros d Hd; [exact Hd|].
    cbn [fold_left]. apply IH. apply dict_set_not_nil. }
  apply H. apply dict_set_not_nil.
Qed.

(** The dictionary [{x: {} for x in field_names}]. *)
Lemma initial_data (field_names : list text) :
  forall (d : dict (list (label * option number))) (k : text),
    (forall k' v, dict_get k' d = Some v -> v = []) ->
    In k field_names \/ dict_get k d <> None ->
    dict_get k (fold_left (fun d x => dict_set x [] d) field_names d) = Some [].
Proof.
  induction field_names as [|x rest IH]; intros d k Hd Hk; cbn [fold_left].
  - destruct Hk as [[]|Hk]. destruct (dict_get k d) as [v|] eqn:E; [|congruence].
    now rewrite (Hd k v E).
  - apply IH.
    + intros k' v. rewrite dict_get_set. destruct (text_eqb k' x); [congruence | apply Hd].
    + rewrite dict_get_set. destruct (text_eqb k x) eqn:E.
      * right. discriminate.
      * destruct Hk as [[->|Hk]|Hk]; [|now left | now right].
        rewrite text_eqb_refl in E. discriminate.
Qed.

Lemma fill_fields_no_period (gaap_data : dict (dict number)) (field_names : list text) :
  forall data,
    (forall k, In k field_names -> dict_get k data <> None) ->
    fill_fields label label_eqb gaap_data [] field_names data = Ok data.
Proof.
  induction field_names as [|k rest IH]; intros data Hd; cbn [fill_fields];
    [reflexivity|].
  unfold getitem. destruct (dict_get k data) as [v|] eqn:E.
  - cbn [bind fill_field]. rewrite (dict_set_same _ _ _ E).
    apply IH. intros k' Hk'. apply Hd. now right.
  - elim (Hd k); [now left | assumption].
Qed.

Lemma no_suffix_no_ids (context_ids : dict ctx_dates) :
  Forall (fun entry => endswith suffix (fst entry) = false) context_ids ->
  filter (endswith suffix) (map fst context_ids) = [].
Proof.
  induction 1 as [|[cid dates] rest H _ IH]; [reflexivity|].
  cbn [map filter fst] in *. now rewrite H.
Qed.

Lemma periods_without_ids context_ids gaap_data field_names :
  Forall (fun entry => endswith suffix (fst entry) = false) context_ids ->
  exists data,
    get_periods label label_eqb label_of suffix context_ids gaap_data field_names
    = Ok data
    /\ forall k, In k field_names -> dict_get k data = Some [].
Proof.
  intros H. unfold get_periods. rewrite (no_suffix_no_ids _ H).
  cbn [sorted fold_right label_all bind ordered_dict fold_left].
  exists (fold_left (fun d x => dict_set x [] d) field_names []). split.
  - apply fill_fields_no_period. intros k Hk.
    rewrite initial_data; [discriminate | discriminate | now left].
  - intros k Hk. apply initial_data; [discriminate | now left].
Qed.

Lemma periods_unlabelled context_ids gaap_data field_names (cid : text) :
  In cid (map fst context_ids) -> endswith suffix cid = true -> label_of cid = None ->
  get_periods label label_eqb label_of suffix context_ids gaap_data field_names
  = Raise AttributeError.
Proof.
  intros Hin He Hl. unfold get_periods.
  rewrite label_all_raises; [reflexivity|].
  apply Exists_exists. exists cid. split; [|assumption].
  apply sorted_in. apply filter_In. now split.
Qed.

Lemma fill_field_cases gaap_data (k : text) (ctx_items : dict label) :
  forall data_k,
    match dict_get k gaap_data with
    | Some _ => exists d, fill_field label label_eqb gaap_data k ctx_items data_k = Ok d
    | None => ctx_items <> [] ->
              fill_field label label_eqb gaap_data k ctx_items data_k = Raise KeyError
    end.
Proof.
  destruct (dict_get k gaap_data) as [k_data|] eqn:E.
  - induction ctx_items as [|[cid p] rest IH]; intros data_k; cbn [fill_field]; [eauto|].
    unfold getitem. rewrite E. cbn [bind]. apply IH.
  - intros data_k Hne. destruct ctx_items as [|[cid p] rest]; [congruence|].
    cbn [fill_field]. unfold getitem. now rewrite E.
Qed.

Lemma fill_fields_missing gaap_data (ctx_items : dict label) (field_names : list text)
    (k : text) :
  ctx_items <> [] -> In k field_names -> dict_get k gaap_data = None ->
  forall data,
    (forall k', In k' field_names -> dict_get k' data <> None) ->
    fill_fields label label_eqb gaap_data ctx_items field_names data = Raise KeyError.
Proof.
  intros Hne Hin Hk. induction field_names as [|f rest IH]; intros data Hd; [destruct Hin|].
  cbn [fill_fields]. unfold getitem at 1.
  destruct (dict_get f data) as [data_f|] eqn:Ef; [|elim (Hd f); [now left | assumption]].
  cbn [bind]. pose proof (fill_field_cases gaap_data f ctx_items data_f) as Hc.
  destruct (dict_get f gaap_data) as [f_data|] eqn:Eg.
  - destruct Hc as [d ->]. cbn [bind].
    destruct Hin as [->|Hin]; [congruence|].
    apply IH; [assumption|]. intros k' Hk'. rewrite dict_get_set.
    destruct (text_eqb k' f); [discriminate|]. apply Hd. now right.
  - now rewrite (Hc Hne).
Qed.

Lemma periods_missing_field context_ids gaap_data field_names (cid k : text) :
  In cid (map fst context_ids) -> endswith suffix cid = true ->
  (forall cid', In cid' (map fst context_ids) -> endswith suffix cid' = true ->
                label_of cid' <> None) ->
  In k field_names -> dict_get k gaap_data = None ->
  get_periods label label_eqb label_of suffix context_ids gaap_data field_names
  = Raise KeyError.
Proof.
  intros Hin He Hall Hk Hg. unfold get_periods.
  destruct (label_all_returns (sorted (filter (endswith suffix) (map fst context_ids))))
    as (pairs & Hp & Hfst).
  { apply Forall_forall. intros c Hc. apply (proj1 (sorted_in _ _)) in Hc.
    apply filter_In in Hc as [Hc1 Hc2]. now apply Hall. }
  rewrite Hp. cbn [bind]. apply fill_fields_missing with k; try assumption.
  - apply ordered_dict_not_nil. intros ->. cbn [map] in Hfst.
    assert (Hc : In cid (sorted (filter (endswith suffix) (map fst context_ids)))).
    { apply sorted_in. apply filter_In. now split. }
    rewrite <- Hfst in Hc. destruct Hc.
  - intros k' Hk'. rewrite initial_data; [discriminate | discriminate | now left].
Qed.

End PeriodFacts.

(** X23. When no context id ends with [QTD], [get_quarterlies] returns an
    empty dictionary for each requested field, also for a field that
    [gaap_data] does not hold; [get_yearlies] does the same when no
    context id ends with [Q4YTD]. *)
Theorem periods_without_matching_ids (context_ids : dict ctx_dates)
    (gaap_data : dict (dict number)) (field_names : list text) :
  (Forall (fun entry => endswith (str "QTD") (fst entry) = false) context_ids ->
   exists data,
     get_quarterlies context_ids gaap_data field_names = Ok data
     /\ forall k, In k field_names -> dict_get k data = Some [])
  /\ (Forall (fun entry => endswith (str "Q4YTD") (fst entry) = false) context_ids ->
      exists data,
        get_yearlies context_ids gaap_data field_names = Ok data
        /\ forall k, In k field_names -> dict_get k data = Some []).
Proof. split; apply periods_without_ids. Qed.

(** X24. A context id that ends with [QTD] but holds no text of the form
    four digits, [Q], a digit from 1 to 4 makes [get_quarterlies] raise
    [AttributeError], whatever fields are asked for; likewise
    [get_yearlies] for an id that ends with [Q4YTD] and holds no four
    digits in a row. *)
Theorem periods_unlabelled_id (context_ids : dict ctx_dates)
    (gaap_data : dict (dict number)) (field_names : list text) (cid : text) :
  In cid (map fst context_ids) ->
  (unlabelled_quarter cid ->
   get_quarterlies context_ids gaap_data field_names = Raise AttributeError)
  /\ (unlabelled_year cid ->
      get_yearlies context_ids gaap_data field_names = Raise AttributeError).
Proof.
  intros Hin. split; intros [He Hs].
  - now apply periods_unlabelled with cid.
  - apply periods_unlabelled with cid; try assumption. now rewrite Hs.
Qed.

Lemma periods_unlabelled_id_witness :
  (unlabelled_quarter (str "FY19QTD") ->
   get_quarterlies [(str "FY19QTD", Duration 0 90)] [] [str "assets"]
   = Raise AttributeError)
  /\ (unlabelled_year (str "FY19QTD") ->
      get_yearlies [(str "FY19QTD", Duration 0 90)] [] [str "assets"]
      = Raise AttributeError).
Proof.
  apply (periods_unlabelled_id [(str "FY19QTD", Duration 0 90)] [] [str "assets"]
           (str "FY19QTD")).
  left. reflexivity.
Defined.

(** X25. When some context id ends with [QTD] and every such id can be
    labelled, asking [get_quarterlies] for a field that [gaap_data] does
    not hold raises [KeyError], whatever the other fields. *)
Theorem quarterlies_missing_field (context_ids : dict ctx_dates)
    (gaap_data : dict (dict number)) (field_names : list text) (cid k : text) :
  In cid (map fst context_ids) -> endswith (str "QTD") cid = true ->
  (forall cid', In cid' (map fst context_ids) -> ~ unlabelled_quarter cid') ->
  In k field_names -> dict_get k gaap_data = None ->
  get_quarterlies context_ids gaap_data field_names = Raise KeyError.
Proof.
  intros Hin He Hall Hk Hg.
  apply periods_missing_field with cid k; try assumption.
  intros cid' Hin' He' Hs. apply (Hall cid' Hin'). now split.
Qed.

Lemma quarterlies_missing_field_witness :
  get_quarterlies [(str "D2019Q1QTD", Duration 0 90)]
    [(str "assets", [(str "D2019Q1QTD", Int 5)])] [str "assets"; str "revenues"]
  = Raise KeyError.
Proof.
  apply (quarterlies_missing_field [(str "D2019Q1QTD", Duration 0 90)]
           [(str "assets", [(str "D2019Q1QTD", Int 5)])] [str "assets"; str "revenues"]
           (str "D2019Q1QTD") (str "revenues")).
  - left. reflexivity.
  - reflexivity.
  - intros cid' [<-|[]] [_ H]. discriminate H.
  - right. left. reflexivity.
  - reflexivity.
Defined.

Example get_quarterlies_ex :
  get_quarterlies
    [(str "D2019Q2QTD", Duration 0 90); (str "I2019", Instant 0);
     (str "D2019Q1QTD", Duration 0 90)]
    [(str "assets", [(str "D2019Q1QTD", Int 5)])] [str "assets"]
  = Ok [(str "assets", [(str "2019Q1", Some (Int 5)); (str "2019Q2", None)])].
Proof. reflexivity. Qed.

Example get_yearlies_ex :
  get_yearlies
    [(str "D2019Q4YTD", Duration 0 360); (str "D2018Q4YTD", Duration 0 360)]
    [(str "assets", [(str "D2019Q4YTD", Int 5)])] [str "assets"]
  = Ok [(str "assets", [(2018%Z, None); (2019%Z, Some (Int 5))])].
Proof. reflexivity. Qed.

(** ** The text tokens of [re.split] *)

Lemma span_name_names (n r : text) (c : ascii) :
  Forall (fun c => Re.name_char c = true) n -> Re.name_char c = false ->
  Re.span_name (n ++ c :: r) = (n, c :: r).
Proof.
  induction 1 as [|a n Ha _ IH]; intros Hc; cbn [app Re.span_name].
  - now rewrite Hc.
  - rewrite Ha, IH by assumption. reflexivity.
Qed.

Lemma match_tag_open (c : ascii) (r : text) :
  Re.name_char c = true ->
  Re.match_tag ("<" :: c :: r) =
  match Re.span_name (c :: r) with
  | ((_ :: _) as n, ">" :: r2) => Some ("<" :: n ++ [">"], r2)
  | _ => None
  end.
Proof.
  intros H. unfold Re.match_tag.
  destruct c as [[] [] [] [] [] [] [] []]; try discriminate H; reflexivity.
Qed.

(** A match does not depend on what follows it. *)
Lemma match_tag_extend (s tag rest more : text) :
  Re.match_tag s = Some (tag, rest) ->
  Re.match_tag (s ++ more) = Some (tag, rest ++ more).
Proof.
  intros H. apply match_tag_inv in H as (slash & n & Hs & Hne & Hn & -> & -> & _).
  assert (Hspan : Re.span_name (n ++ ">" :: rest ++ more) = (n, ">" :: rest ++ more)).
  { now apply span_name_names. }
  destruct n as [|c0 n]; [congruence|].
  inversion Hn as [|? ? Hc0 _]; subst.
  destruct Hs as [-> | ->].
  - cbn [app]. rewrite <- !app_assoc. cbn [app].
    rewrite match_tag_open by assumption.
    cbn [app] in Hspan. now rewrite Hspan.
  - cbn [app]. rewrite <- !app_assoc. cbn [app].
    unfold Re.match_tag. cbn [app] in Hspan. now rewrite Hspan.
Qed.

Lemma texts_of_cons (t : text) (ts : list text) :
  texts_of (t :: ts) = t :: match ts with [] => [] | _ :: rest => texts_of rest end.
Proof. reflexivity. Qed.

Lemma tag_free_nil : tag_free [].
Proof.
  intros before after H. symmetry in H. apply app_eq_nil in H as [_ ->]. reflexivity.
Qed.

Lemma split_from_texts (fuel : nat) : forall s : text,
  (length s <= fuel)%nat -> Forall tag_free (texts_of (Re.split_from fuel s)).
Proof.
  induction fuel as [|n IH]; intros s Hs.
  - destruct s; [|simpl in Hs; lia]. repeat constructor. apply tag_free_nil.
  - cbn [Re.split_from]. destruct s as [|c r].
    + repeat constructor. apply tag_free_nil.
    + simpl in Hs. destruct (Re.match_tag (c :: r)) as [[tag rest]|] eqn:E.
      * pose proof (match_tag_shaped _ _ _ E) as [_ Hl]. simpl in Hl.
        cbn [texts_of]. constructor; [apply tag_free_nil|].
        apply IH. lia.
      * pose proof (split_from_concat n r) as Hc.
        specialize (IH r ltac:(lia)).
        destruct (Re.split_from n r) as [|t ts]; [repeat constructor|].
        -- intros before after H. destruct before as [|b before].
           ++ cbn [app] in H. subst after. cbn [concat] in Hc. now subst r.
           ++ inversion H as [[Hb Ha]]. symmetry in Ha.
              apply app_eq_nil in Ha as [_ ->]. reflexivity.
        -- rewrite texts_of_cons in *. inversion IH as [|? ? Ht Hts]; subst.
           constructor; [|assumption].
           intros before after H. destruct before as [|b before].
           ++ cbn [app] in H. subst after.
              destruct (Re.match_tag (c :: t)) as [[tag rest]|] eqn:Et; [|reflexivity].
              apply match_tag_extend with (more := concat ts) in Et.
              cbn [app concat] in *. congruence.
           ++ inversion H as [[Hb Ha]]. now apply (Ht before after).
Qed.

(** X26. No tag starts inside a text token of [re.split]: the tokens cut
    the stream at every leftmost match of the tag pattern. *)
Theorem split_texts_tag_free (s : text) :
  Forall tag_free (texts_of (Re.split s)).
Proof. apply split_from_texts. apply Nat.le_refl. Qed.

(** ** The object returned by get_GAAP *)

Section Report.

Context {K : Clock}.

Lemma dict_get_absent {V : Type} (k : text) (d : dict V) :
  ~ In k (map fst d) -> dict_get k d = None.
Proof.
  induction d as [|[k0 v0] r IH]; intros H; cbn [dict_get]; [reflexivity|].
  destruct (text_eqb k k0) eqn:E.
  - apply text_eqb_eq in E. subst k0. elim H. now left.
  - apply IH. intros Hin. apply H. now right.
Qed.

Lemma set_fields_get (ctx_id k : text) (gaap_data : dict (dict number)) :
  NoDup (map fst gaap_data) ->
  forall gaap_obj,
    dict_get k (set_fields ctx_id gaap_data gaap_obj) =
    match dict_get k gaap_data with
    | Some k_data => Some (value_at ctx_id k_data)
    | None => dict_get k gaap_obj
    end.
Proof.
  unfold set_fields.
  induction gaap_data as [|[k0 d0] rest IH]; intros Hn gaap_obj; [reflexivity|].
  cbn [map fst] in Hn. inversion Hn as [|? ? Hk0 Hrest]; subst.
  cbn [fold_left dict_get fst snd]. rewrite (IH Hrest), dict_get_set.
  destruct (text_eqb k k0) eqn:E; [|reflexivity].
  apply text_eqb_eq in E. subst k0. now rewrite (dict_get_absent _ _ Hk0).
Qed.

Lemma set_fields_keys (ctx_id : text) (gaap_data : dict (dict number)) :
  forall gaap_obj,
    exists extra,
      map fst (set_fields ctx_id gaap_data gaap_obj) = map fst gaap_obj ++ extra.
Proof.
  unfold set_fields.
  induction gaap_data as [|[k0 d0] rest IH]; intros gaap_obj; cbn [fold_left].
  - exists []. now rewrite app_nil_r.
  - destruct (IH (dict_set k0 (value_at ctx_id d0) gaap_obj)) as [extra He].
    cbn [fst snd]. rewrite He, dict_set_keys.
    destruct (mem k0 (map fst gaap_obj)); [now exists extra|].
    exists (k0 :: extra). now rewrite <- app_assoc.
Qed.

Lemma GAAP_new_get (k : text) :
  dict_get k GAAP_new = if mem k GAAP_fields then Some zero else None.
Proof.
  unfold GAAP_new, mem. induction GAAP_fields as [|f l IH]; [reflexivity|].
  cbn [map dict_get existsb]. destruct (text_eqb k f); [reflexivity | exact IH].
Qed.

Lemma GAAP_new_keys : map fst GAAP_new = GAAP_fields.
Proof. unfold GAAP_new. rewrite map_map. cbn [fst]. apply map_id. Qed.

(** X9. The object [get_GAAP] returns carries the fields the class [GAAP]
    declares, in the order of the declaration, followed by the keys of
    [gaap_data] that are not declared.  Each key of [gaap_data] holds the
    value recorded for the chosen context id, or [0.] when the concept has
    none there; a declared field that is not a key of [gaap_data] keeps
    its default [0.0]. *)
Theorem get_GAAP_report (context_ids : dict ctx_dates) (gaap_data : dict (dict number))
    (context : selector) (end_date : end_date_arg) (report : dict number) :
  NoDup (map fst gaap_data) ->
  get_GAAP context_ids gaap_data context end_date = Ok report ->
  exists end_date' ctx_id,
    end_date_of end_date = Ok end_date'
    /\ choose_ctx_id context_ids context end_date' = Ok ctx_id
    /\ (exists extra, map fst report = GAAP_fields ++ extra)
    /\ forall k,
         dict_get k report =
         match dict_get k gaap_data with
         | Some k_data => Some (value_at ctx_id k_data)
         | None => if mem k GAAP_fields then Some zero else None
         end.
Proof.
  intros Hn. unfold get_GAAP.
  destruct (end_date_of end_date) as [end_date'|x] eqn:Ee; [|discriminate].
  cbn [bind].
  destruct (choose_ctx_id context_ids context end_date') as [ctx_id|x] eqn:Ec;
    [|discriminate].
  cbn [bind]. intros H; inversion H; subst report; clear H.
  exists end_date', ctx_id. split; [reflexivity|]. split; [exact Ec|]. split.
  - destruct (set_fields_keys ctx_id gaap_data GAAP_new) as [extra He].
    exists extra. now rewrite He, GAAP_new_keys.
  - intros k. rewrite (set_fields_get _ _ _ Hn), GAAP_new_get. reflexivity.
Qed.

Lemma find_ctx_id_plain_date (context : period) (ordinal : Z) (cid : text)
    (catalog : dict ctx_dates) :
  find_ctx_id context (Date ordinal) catalog <> Ok (Some cid).
Proof.
  induction catalog as [|[cid' [d|s e]] rest IH]; [discriminate| |].
  - cbn [find_ctx_id equals len]. rewrite !andb_false_r.
    change (1 =? 2)%Z with false. cbv iota. exact IH.
  - destruct context as [|delta].
    + cbn. discriminate.
    + cbn [find_ctx_id equals len is_instant andb] in *.
      rewrite !andb_false_r. change (2 =? 2)%Z with true. cbv iota. exact IH.
Qed.

(** X28. An end date that is a plain [date] is equal to no [datetime] of
    the catalog, so no context is ever chosen for it: [get_GAAP] called
    without an end date, which takes [datetime.date.today()], never
    returns a report. *)
Theorem plain_date_never_matches (context_ids : dict ctx_dates)
    (gaap_data : dict (dict number)) (context : selector) :
  (forall ordinal cid, choose_ctx_id context_ids context (Date ordinal) <> Ok cid)
  /\ (forall report, get_GAAP context_ids gaap_data context Arg_none <> Ok report).
Proof.
  assert (H : forall ordinal cid,
              choose_ctx_id context_ids context (Date ordinal) <> Ok cid).
  { intros ordinal cid. unfold choose_ctx_id.
    destruct (normalize context) as [context'|x]; [|discriminate]. cbn [bind].
    destruct (match context' with
              | P_instant => Ok None
              | P_delta delta => s <- minus (Date ordinal) delta ;; Ok (Some s)
              end) as [start|x]; [|discriminate].
    cbn [bind].
    destruct (find_ctx_id context' (Date ordinal) context_ids) as [[cid'|]|x] eqn:E;
      cbn [bind]; try discriminate.
    now apply find_ctx_id_plain_date in E. }
  split; [exact H|].
  intros report. unfold get_GAAP. cbn [end_date_of bind].
  destruct (choose_ctx_id context_ids context (Date today)) as [cid|x] eqn:E;
    [now apply H in E | discriminate].
Qed.

End Report.

Lemma get_GAAP_report_witness :
  exists end_date' ctx_id,
    @end_date_of Fixed.clock (Arg_str (str "20200630")) = Ok end_date'
    /\ choose_ctx_id [(str "I1", Instant (ymd 2020 6 30))] Sel_instant end_date'
       = Ok ctx_id
    /\ (exists extra,
          map fst (set_fields (str "I1")
                     [(str "assets", [(str "I1", Int 7)]); (str "revenues", []);
                      (str "operating_expenses", [(str "I1", Int 3)])] GAAP_new)
          = GAAP_fields ++ extra)
    /\ forall k,
         dict_get k (set_fields (str "I1")
                       [(str "assets", [(str "I1", Int 7)]); (str "revenues", []);
                        (str "operating_expenses", [(str "I1", Int 3)])] GAAP_new)
         = match dict_get k [(str "assets", [(str "I1", Int 7)]); (str "revenues", []);
                             (str "operating_expenses", [(str "I1", Int 3)])] with
           | Some k_data => Some (value_at ctx_id k_data)
           | None => if mem k GAAP_fields then Some zero else None
           end.
Proof.
  apply (@get_GAAP_report Fixed.clock [(str "I1", Instant (ymd 2020 6 30))]
           [(str "assets", [(str "I1", Int 7)]); (str "revenues", []);
            (str "operating_expenses", [(str "I1", Int 3)])]
           Sel_instant (Arg_str (str "20200630"))).
  - repeat constructor; cbn; intuition discriminate.
  - reflexivity.
Defined.

Example get_GAAP_ex :
  option_map (fun report => (dict_get (str "assets") report,
                             dict_get (str "liabilities") report,
                             dict_get (str "operating_expenses") report,
                             length report))
    (match @get_GAAP Fixed.clock [(str "I1", Instant (ymd 2020 6 30))]
             [(str "assets", [(str "I1", Int 7)]);
              (str "operating_expenses", [(str "I1", Int 3)])]
             Sel_instant (Arg_str (str "20200630")) with
     | Ok report => Some report
     | Raise _ => None
     end)
  = Some (Some (Int 7), Some zero, Some (Int 3), 49%nat).
Proof. reflexivity. Qed.
